(** * cobaltlang: the lexer (src/cobalt/lexer.cpp)

    A shallow embedding of [co::Lexer] and the proofs of its specification.

    The lexer owns a [std::string_view] over the source text and an iterator
    into it.  The embedding keeps the source as a list of bytes and the
    iterator as an offset from [_source.begin()].  Every method of the class
    becomes a function on the lexer state; a method that dereferences the
    iterator or throws returns a [result], so that a read outside the buffer
    and an exception escaping [next_token] are visible outcomes and not
    silently given a value. *)

From Stdlib Require Import Ascii String List Arith ZArith Lia Bool.
Import ListNotations.

Local Open Scope nat_scope.

(** ** Bytes and the <cctype> classifiers

    [isalpha], [isdigit] and [isspace] are taken in the "C" locale, on which
    the lexer relies; bytes outside ASCII belong to none of the classes. *)

Definition in_range (lo hi : nat) (c : ascii) : bool :=
  (lo <=? nat_of_ascii c) && (nat_of_ascii c <=? hi).

Definition isalpha (c : ascii) : bool := in_range 65 90 c || in_range 97 122 c.

Definition isdigit (c : ascii) : bool := in_range 48 57 c.

Definition isspace (c : ascii) : bool :=
  (nat_of_ascii c =? 32) || in_range 9 13 c.

(** A string literal of the source, as the bytes of a [std::string_view]. *)
Definition sv (s : string) : list ascii := list_ascii_of_string s.

(** [operator==] on two string views. *)
Fixpoint sv_eqb (a b : list ascii) : bool :=
  match a, b with
  | [], [] => true
  | x :: a', y :: b' => Ascii.eqb x y && sv_eqb a' b'
  | _, _ => false
  end.

(** ** Tokens *)

(** Modelled from the spec: [TokenType] and [Token] are declared in
    lexer.hpp, which is missing; the spec lists the kinds, and a token is a
    kind and a view into the source. *)
Inductive TokenType : Type :=
| EndOfLine
| ParameterListBegin
| ParameterListEnd
| FunctionBodyBegin
| FunctionBodyEnd
| PropertyBodyBegin
| PropertyBodyEnd
| Equal
| TypeConstraintSeparator
| Separator
| Return
| Break
| Continue
| Identifier
| LiteralInt
| LiteralFloat
| EndOfFile
| Unexpected.

(** A [std::string_view] into the source: where it starts and how long it
    is.  It is a pair of numbers and is never dereferenced by the lexer once
    built, so the view of [EndOfFile] may lie outside the buffer. *)
Record View : Type := { start : nat; size : nat }.

Record Token : Type := { type : TokenType; view : View }.

(** Modelled from the spec: [make_view(begin, end)] is defined in
    utility.hpp, which is missing; the spec gives the span of a token as
    [begin, end). *)
Definition make_view (b e : nat) : View := {| start := b; size := e - b |}.

(** The bytes a view denotes. *)
Definition view_text (src : list ascii) (v : View) : list ascii :=
  firstn (size v) (skipn (start v) src).

(** The table of fixed tokens. *)
Definition basic_tokens : list (list ascii * TokenType) :=
  [ (["010"%char], EndOfLine);
    (sv "(", ParameterListBegin);
    (sv ")", ParameterListEnd);
    (sv "{", FunctionBodyBegin);
    (sv "}", FunctionBodyEnd);
    (sv "[", PropertyBodyBegin);
    (sv "]", PropertyBodyEnd);
    (sv "=", Equal);
    (sv ":", TypeConstraintSeparator);
    (sv ",", Separator) ].

(** ** Outcomes

    What a call can do besides returning: read a byte outside the buffer
    (undefined behaviour in C++), let an exception of a numeric conversion
    escape ([std::out_of_range], [std::invalid_argument]; nothing catches
    them), or loop for ever. *)

Inductive fault : Type :=
| OutOfBounds
| OutOfRange
| InvalidArgument
| NoTermination.

Inductive result (A : Type) : Type :=
| Ok (a : A)
| Fault (f : fault).

Arguments Ok {A} a.
Arguments Fault {A} f.

(** ** std::stoll *)

Definition LLONG_MAX : Z := 9223372036854775807.
Definition LLONG_MIN : Z := -9223372036854775808.

Definition digit_value (c : ascii) : Z := Z.of_nat (nat_of_ascii c - 48).

(** The value of a run of decimal digits, most significant first. *)
Definition decimal_value (ds : list ascii) : Z :=
  fold_left (fun acc c => 10 * acc + digit_value c)%Z ds 0%Z.

Fixpoint drop_while (p : ascii -> bool) (s : list ascii) : list ascii :=
  match s with
  | c :: s' => if p c then drop_while p s' else s
  | [] => []
  end.

Fixpoint take_while (p : ascii -> bool) (s : list ascii) : list ascii :=
  match s with
  | c :: s' => if p c then c :: take_while p s' else []
  | [] => []
  end.

(** [std::stoll(str)] in base 10: leading white space, an optional sign, then
    the longest run of digits; what follows the digits is ignored.  No digit
    at all throws [std::invalid_argument], a value that does not fit a
    [long long] throws [std::out_of_range]. *)
Definition stoll (str : list ascii) : result Z :=
  let s := drop_while isspace str in
  let '(negative, s) :=
    match s with
    | c :: s' =>
        if Ascii.eqb c "-" then (true, s')
        else if Ascii.eqb c "+" then (false, s')
        else (false, s)
    | [] => (false, s)
    end in
  match take_while isdigit s with
  | [] => Fault InvalidArgument
  | ds =>
      let v := if negative then (- decimal_value ds)%Z else decimal_value ds in
      if ((LLONG_MIN <=? v) && (v <=? LLONG_MAX))%Z then Ok v else Fault OutOfRange
  end.

Section Lexer.

(** [std::stod] and the type [double] are a parameter of the development:
    binary floating point is not modelled.  [None] is an exception thrown by
    the conversion. *)
Context {double : Type} (stod : list ascii -> option double).

(** ** The lexer state *)

(** Modelled from the spec: the declaration of [Lexer::value] is in lexer.hpp,
    which is missing; the spec gives it as a variant over none, string,
    integer and float. *)
Inductive Value : Type :=
| VNone
| VString (s : list ascii)
| VInt (z : Z)
| VDouble (d : double).

Record Lexer : Type := {
  _source : list ascii;   (* std::string_view _source *)
  _cursor : nat;          (* the iterator, as an offset from _source.begin() *)
  value : Value
}.

Definition set_cursor (l : Lexer) (c : nat) : Lexer :=
  {| _source := _source l; _cursor := c; value := value l |}.

Definition set_value (l : Lexer) (v : Value) : Lexer :=
  {| _source := _source l; _cursor := _cursor l; value := v |}.

(** [Lexer::Lexer(source)]. *)
Definition Lexer_new (source : list ascii) : Lexer :=
  {| _source := source; _cursor := 0; value := VNone |}.

(** ** A state and error monad for the member functions *)

Definition M (A : Type) : Type := Lexer -> result (A * Lexer).

Definition ret {A} (a : A) : M A := fun l => Ok (a, l).

Definition bind {A B} (m : M A) (f : A -> M B) : M B :=
  fun l => match m l with
           | Ok (a, l') => f a l'
           | Fault e => Fault e
           end.

(** A [const] member function: it reads the state and may fault. *)
Definition query {A} (q : Lexer -> result A) : M A :=
  fun l => match q l with
           | Ok a => Ok (a, l)
           | Fault e => Fault e
           end.

Definition gets {A} (f : Lexer -> A) : M A := fun l => Ok (f l, l).

Definition throw {A} (e : fault) : M A := fun _ => Fault e.

Notation "x <- m ;; k" := (bind m (fun x => k))
  (at level 61, m at next level, right associativity).
Notation "m ;;; k" := (bind m (fun _ => k))
  (at level 61, right associativity).

(** ** Member functions *)

(** [*_cursor]. *)
Definition deref (l : Lexer) : result ascii :=
  match nth_error (_source l) (_cursor l) with
  | Some c => Ok c
  | None => Fault OutOfBounds
  end.

Definition is_first_identifier_char (c : ascii) : bool := isalpha c.

Definition is_identifier_char (c : ascii) : bool :=
  is_first_identifier_char c || isdigit c.

Definition eof (l : Lexer) : bool := _cursor l =? length (_source l).

(** [std::distance(_cursor, _source.end())], a [ptrdiff_t]. *)
Definition distance_to_end (l : Lexer) : Z :=
  (Z.of_nat (length (_source l)) - Z.of_nat (_cursor l))%Z.

(** The conversion [size_t(d)] of a [ptrdiff_t]: a negative distance wraps. *)
Definition size_t_of_ptrdiff (d : Z) : Z :=
  if (d <? 0)%Z then (d + 2 ^ 64)%Z else d.

(** The bytes of [std::string_view{_cursor, n}], read for a comparison. *)
Definition read_view (l : Lexer) (n : nat) : result (list ascii) :=
  let bytes := firstn n (skipn (_cursor l) (_source l)) in
  if length bytes =? n then Ok bytes else Fault OutOfBounds.

(** [Lexer::match(std::string_view)]. *)
Definition match_sv (substring : list ascii) (l : Lexer) : result bool :=
  if (Z.of_nat (length substring) <=? size_t_of_ptrdiff (distance_to_end l))%Z
  then match read_view l (length substring) with
       | Ok bytes => Ok (sv_eqb substring bytes)
       | Fault e => Fault e
       end
  else Ok false.

(** [Lexer::match(char)]. *)
Definition match_char (c : ascii) (l : Lexer) : result bool :=
  match deref l with
  | Ok x => Ok (Ascii.eqb x c)
  | Fault e => Fault e
  end.

(** The loop of [skip_until(stop_condition)]; each turn moves the cursor one
    byte, so [length _source - _cursor] turns reach the end of the buffer
    from a cursor inside it. *)
Fixpoint skip_until_loop (fuel : nat) (stop_condition : Lexer -> result bool)
    (l : Lexer) {struct fuel} : result (unit * Lexer) :=
  if eof l then Ok (tt, l)
  else match stop_condition l with
       | Fault e => Fault e
       | Ok true => Ok (tt, l)
       | Ok false =>
           match fuel with
           | 0 => Fault NoTermination
           | S fuel' =>
               skip_until_loop fuel' stop_condition (set_cursor l (S (_cursor l)))
           end
       end.

Definition skip_until (stop_condition : Lexer -> result bool) : M unit :=
  fun l => skip_until_loop (length (_source l) - _cursor l) stop_condition l.

(** The stop condition "the byte at the cursor satisfies [p]". *)
Definition at_char (p : ascii -> bool) (l : Lexer) : result bool :=
  match deref l with
  | Ok c => Ok (p c)
  | Fault e => Fault e
  end.

Definition skip_until_char (stop_char : ascii) : M unit :=
  skip_until (at_char (fun c => Ascii.eqb c stop_char)).

Definition skip_until_sv (stop_string : list ascii) : M unit :=
  skip_until (match_sv stop_string).

(** [Lexer::skip(count)]. *)
Definition skip (count : nat) : M unit :=
  fun l => if negb (eof l) then Ok (tt, set_cursor l (_cursor l + count))
           else Ok (tt, l).

(** Modelled from the spec: the default argument of [skip] is declared in
    lexer.hpp, which is missing; the spec gives the step of [skip()] as one
    byte. *)
Definition skip_default : nat := 1.

Definition skip_beyond (stop_condition : Lexer -> result bool) : M unit :=
  skip_until stop_condition ;;; skip skip_default.

Definition skip_beyond_char (stop_char : ascii) : M unit :=
  skip_until_char stop_char ;;; skip skip_default.

Definition skip_beyond_sv (stop_string : list ascii) : M unit :=
  skip_until_sv stop_string ;;; skip (length stop_string).

(** [Lexer::try_tokenize(name, type)]. *)
Definition try_tokenize (name : list ascii) (ty : TokenType) : M (option Token) :=
  b <- query (match_sv name) ;;
  if b : bool then
    c <- gets _cursor ;;
    let token := {| type := ty; view := {| start := c; size := length name |} |} in
    skip (length name) ;;;
    ret (Some token)
  else ret None.

(** [Lexer::next_char()]. *)
Definition next_char : M ascii :=
  fun l => let l' := set_cursor l (S (_cursor l)) in
           match deref l' with
           | Ok c => Ok (c, l')
           | Fault e => Fault e
           end.

(** The [for] loop of [next_token] over [basic_tokens]. *)
Fixpoint try_basic_tokens (table : list (list ascii * TokenType)) : M (option Token) :=
  match table with
  | [] => ret None
  | (name, ty) :: rest =>
      token <- try_tokenize name ty ;;
      match token with
      | Some t => ret (Some t)
      | None => try_basic_tokens rest
      end
  end.

Definition set_value_m (v : Value) : M unit := fun l => Ok (tt, set_value l v).

(** [std::string{token_begin, _cursor}]. *)
Definition string_between (token_begin : nat) : M (list ascii) :=
  gets (fun l => view_text (_source l) (make_view token_begin (_cursor l))).

(** Lines 143-163: the identifier and reserved-word branch. *)
Definition next_token_identifier (token_begin : nat) : M Token :=
  skip_until (at_char (fun c => negb (is_identifier_char c))) ;;;
  c <- gets _cursor ;;
  let view := make_view token_begin c in
  text <- gets (fun l => view_text (_source l) view) ;;
  if sv_eqb text (sv "return") then ret {| type := Return; view := view |}
  else if sv_eqb text (sv "break") then ret {| type := Break; view := view |}
  else if sv_eqb text (sv "continue") then ret {| type := Continue; view := view |}
  else
    set_value_m (VString text) ;;;
    ret {| type := Identifier; view := view |}.

(** Lines 165-181: the numeric literal branch. *)
Definition next_token_numeric (token_begin : nat) : M Token :=
  skip_until (at_char (fun c => negb (isdigit c))) ;;;
  point <- query (match_sv (sv ".")) ;;
  if point : bool then
    skip skip_default ;;;
    skip_until (at_char (fun c => negb (isdigit c))) ;;;
    text <- string_between token_begin ;;
    match stod text with
    | Some d =>
        set_value_m (VDouble d) ;;;
        c <- gets _cursor ;;
        ret {| type := LiteralFloat; view := make_view token_begin c |}
    | None => throw OutOfRange
    end
  else
    text <- string_between token_begin ;;
    match stoll text with
    | Ok z =>
        set_value_m (VInt z) ;;;
        c <- gets _cursor ;;
        ret {| type := LiteralInt; view := make_view token_begin c |}
    | Fault e => throw e
    end.

(** [Lexer::next_token()]. *)
Definition next_token : M Token :=
  skip_until (at_char (fun c => negb (isspace c))) ;;;
  line_comment <- query (match_sv (sv "//")) ;;
  (if line_comment : bool then skip_until_char "010"%char
   else
     block_comment <- query (match_sv (sv "/*")) ;;
     if block_comment : bool then skip_beyond_sv (sv "*/") else ret tt) ;;;
  at_end <- gets eof ;;
  if at_end : bool then
    c <- gets _cursor ;;
    ret {| type := EndOfFile; view := {| start := c; size := 1 |} |}
  else
    token_begin <- gets _cursor ;;
    token <- try_basic_tokens basic_tokens ;;
    match token with
    | Some t => ret t
    | None =>
        first <- query deref ;;
        if is_first_identifier_char first then next_token_identifier token_begin
        else
          c <- query deref ;;
          if isdigit c then next_token_numeric token_begin
          else
            (* return {TokenType::Unexpected, {_cursor++, 1}} *)
            cur <- gets _cursor ;;
            (fun l => Ok (tt, set_cursor l (S cur))) ;;;
            ret {| type := Unexpected; view := {| start := cur; size := 1 |} |}
    end.

(** [n] successive calls of [next_token], with the tokens they return. *)
Fixpoint next_tokens (n : nat) : M (list Token) :=
  match n with
  | 0 => ret []
  | S n' =>
      t <- next_token ;;
      ts <- next_tokens n' ;;
      ret (t :: ts)
  end.

End Lexer.

(** ** Notions the statements use *)

Section Notions.

Context {double : Type}.

(** The cursor is an offset into the buffer or its end. *)
Definition valid (l : @Lexer double) : Prop := _cursor l <= length (_source l).

(** [l'] is [l] with the cursor moved forward and nothing else changed. *)
Definition moved (l l' : @Lexer double) : Prop :=
  _source l' = _source l /\ value l' = value l /\ _cursor l <= _cursor l'.

End Notions.

(** [sub] is a prefix of [s]. *)
Definition starts_with (sub s : list ascii) : bool :=
  sv_eqb sub (firstn (length sub) s).

(** [sub] occurs somewhere in [s]. *)
Fixpoint contains (sub s : list ascii) : bool :=
  starts_with sub s ||
  match s with
  | [] => false
  | _ :: s' => contains sub s'
  end.

(** [c] is the text of an entry of the fixed-token table (they are all one
    byte long). *)
Definition is_basic_char (c : ascii) : bool :=
  existsb (fun entry => sv_eqb (fst entry) [c]) basic_tokens.

(** The outcomes of a call that is well defined: it returns, or an exception
    of a numeric conversion escapes it.  Reading outside the buffer and
    looping for ever are not among them. *)
Definition returns_or_throws {A : Type} (r : result A) : Prop :=
  match r with
  | Ok _ => True
  | Fault OutOfRange | Fault InvalidArgument => True
  | Fault OutOfBounds | Fault NoTermination => False
  end.

(** The kinds of token that carry a semantic value. *)
Definition carries_value (ty : TokenType) : bool :=
  match ty with
  | Identifier | LiteralInt | LiteralFloat => true
  | _ => false
  end.

(** The states a lexer built over [source] can be in: the new lexer, and
    every state a returning call of [next_token] leaves behind. *)
Inductive reachable {double : Type} (stod : list ascii -> option double)
    (source : list ascii) : @Lexer double -> Prop :=
| reachable_new : reachable stod source (Lexer_new source)
| reachable_next : forall l t l',
    reachable stod source l ->
    next_token stod l = Ok (t, l') ->
    reachable stod source l'.

(** What a returning call of [next_token] leaves in [value]: the text of an
    identifier, the number a literal denotes, and for every other kind of
    token what was there before the call. *)
Definition value_after {double : Type} (stod : list ascii -> option double)
    (l : @Lexer double) (t : Token) (l' : @Lexer double) : Prop :=
  let text := view_text (_source l) (view t) in
  match type t with
  | Identifier => value l' = VString text
  | LiteralInt => exists z, stoll text = Ok z /\ value l' = VInt z
  | LiteralFloat => exists d, stod text = Some d /\ value l' = VDouble d
  | _ => value l' = value l
  end.

(** The outcomes of a call that returns or lets [std::out_of_range]
    escape, and does nothing else. *)
Definition returns_or_out_of_range {A : Type} (r : result A) : Prop :=
  match r with
  | Ok _ => True
  | Fault OutOfRange => True
  | Fault _ => False
  end.

(** The reserved words, with their kinds. *)
Definition reserved_words : list (list ascii * TokenType) :=
  [ (sv "return", Return); (sv "break", Break); (sv "continue", Continue) ].

(** [s] is empty or starts with a byte that satisfies [p]. *)
Definition ends_or_starts (p : ascii -> bool) (s : list ascii) : Prop :=
  match s with
  | [] => True
  | c :: _ => p c = true
  end.

(** A stand-in for [std::stod] to run the lexer on concrete inputs: the
    double is kept as the text it is read from. *)
Definition stod_symbolic (s : list ascii) : option (list ascii) := Some s.

(** * Proofs *)

(** ** Bytes and views *)

Lemma sv_eqb_eq (a b : list ascii) : sv_eqb a b = true <-> a = b.
Proof.
  revert b; induction a as [|x a IH]; intros [|y b]; simpl; split;
    try congruence; try reflexivity.
  - intros H. apply andb_true_iff in H as [Hxy Hab].
    apply Ascii.eqb_eq in Hxy. apply IH in Hab. congruence.
  - intros H. injection H as -> ->.
    rewrite Ascii.eqb_refl. simpl. now apply IH.
Qed.

Lemma sv_eqb_refl (a : list ascii) : sv_eqb a a = true.
Proof. now apply sv_eqb_eq. Qed.

Lemma starts_with_length (sub s : list ascii) :
  starts_with sub s = true -> length sub <= length s.
Proof.
  unfold starts_with. intros H. apply sv_eqb_eq in H.
  apply (f_equal (@length ascii)) in H. rewrite length_firstn in H. lia.
Qed.

Lemma starts_with_cons x sub c s :
  starts_with (x :: sub) (c :: s) = Ascii.eqb x c && starts_with sub s.
Proof. reflexivity. Qed.

Lemma starts_with_nil x sub : starts_with (x :: sub) [] = false.
Proof. reflexivity. Qed.

Lemma contains_skipn (sub s : list ascii) :
  contains sub s = false -> forall i, starts_with sub (skipn i s) = false.
Proof.
  induction s as [|c s IH]; intros H i.
  - simpl in H. apply orb_false_iff in H as [H _]. now rewrite skipn_nil.
  - simpl in H. apply orb_false_iff in H as [H Hs].
    destruct i as [|i]; [exact H | simpl; now apply IH].
Qed.

Lemma isalpha_class c :
  isalpha c = true ->
  isspace c = false /\ c <> "/"%char /\ is_basic_char c = false /\
  isdigit c = false.
Proof.
  destruct c as [[] [] [] [] [] [] [] []]; vm_compute; intros H;
    try discriminate H; repeat split; discriminate.
Qed.

Lemma isdigit_class c :
  isdigit c = true ->
  isspace c = false /\ c <> "/"%char /\ is_basic_char c = false /\
  isalpha c = false /\ c <> "-"%char /\ c <> "+"%char /\
  (0 <= digit_value c <= 9)%Z.
Proof.
  destruct c as [[] [] [] [] [] [] [] []]; vm_compute; intros H;
    try discriminate H; repeat split; discriminate.
Qed.

(** ** std::stoll on a run of digits *)

Lemma decimal_value_from acc ds :
  (0 <= acc)%Z -> forallb isdigit ds = true ->
  (0 <= fold_left (fun acc c => 10 * acc + digit_value c) ds acc)%Z.
Proof.
  revert acc; induction ds as [|c ds IH]; intros acc Hacc Hds;
    cbn [fold_left forallb] in *.
  - exact Hacc.
  - apply andb_true_iff in Hds as [Hc Hds].
    apply IH; [|exact Hds].
    pose proof (isdigit_class c Hc) as (_ & _ & _ & _ & _ & _ & Hv). lia.
Qed.

Lemma take_while_all p s : forallb p s = true -> take_while p s = s.
Proof.
  induction s as [|c s IH]; simpl; [reflexivity|].
  intros [Hc Hs]%andb_true_iff. rewrite Hc. f_equal. auto.
Qed.

Lemma stoll_digits c ds :
  forallb isdigit (c :: ds) = true ->
  stoll (c :: ds) =
  if (decimal_value (c :: ds) <=? LLONG_MAX)%Z
  then Ok (decimal_value (c :: ds)) else Fault OutOfRange.
Proof.
  intros Hall. pose proof Hall as Hnn.
  apply (decimal_value_from 0) in Hnn; [|lia]. fold (decimal_value (c :: ds)) in Hnn.
  pose proof Hall as [Hc _]%andb_true_iff.
  destruct (isdigit_class c Hc) as (Hsp & _ & _ & _ & Hminus & Hplus & _).
  unfold stoll. cbn [drop_while]. rewrite Hsp.
  destruct (Ascii.eqb_spec c "-"); [contradiction|].
  destruct (Ascii.eqb_spec c "+"); [contradiction|].
  rewrite (take_while_all _ _ Hall).
  destruct (Z.leb_spec LLONG_MIN (decimal_value (c :: ds))) as [_|Hlt];
    [reflexivity|].
  unfold LLONG_MIN in Hlt. lia.
Qed.

Lemma stoll_returns_or_throws s : returns_or_throws (stoll s).
Proof.
  unfold stoll.
  destruct (match drop_while isspace s with
            | [] => _
            | c :: s' => _
            end) as [negative s1].
  destruct (take_while isdigit s1); [exact I|].
  destruct (_ && _)%bool; exact I.
Qed.

Section LexerProofs.

Context {double : Type} (stod : list ascii -> option double).

Implicit Types l : @Lexer double.
Implicit Types v : @Value double.

(** ** The monad *)

Lemma bind_inv {A B} (m : M A) (f : A -> M B) l (b : B) l' :
  bind m f l = Ok (b, l') ->
  exists a l1, m l = Ok (a, l1) /\ f a l1 = Ok (b, l').
Proof.
  unfold bind. destruct (m l) as [[a l1]|e]; [eauto | discriminate].
Qed.

Lemma query_inv {A} (q : Lexer -> result A) l (a : A) l' :
  query q l = Ok (a, l') -> l' = l /\ q l = Ok a.
Proof.
  unfold query. destruct (q l); [|discriminate].
  intros H; injection H as -> ->. auto.
Qed.

Lemma gets_inv {A} (f : Lexer -> A) l (a : A) l' :
  gets f l = Ok (a, l') -> l' = l /\ a = f l.
Proof. unfold gets. intros H; injection H as <- <-. auto. Qed.

Lemma ret_inv {A} (a b : A) l l' : ret a l = Ok (b, l') -> b = a /\ l' = l.
Proof. unfold ret. intros H; injection H as <- <-. auto. Qed.

Lemma Lexer_ext l l' :
  _source l = _source l' -> _cursor l = _cursor l' -> value l = value l' ->
  l = l'.
Proof. destruct l, l'; simpl; congruence. Qed.

Lemma moved_refl l : moved l l.
Proof. unfold moved; auto. Qed.

Lemma moved_trans l1 l2 l3 : moved l1 l2 -> moved l2 l3 -> moved l1 l3.
Proof.
  unfold moved. intros (S1 & V1 & C1) (S2 & V2 & C2).
  repeat split; try congruence; lia.
Qed.

Lemma moved_set_cursor l c : _cursor l <= c -> moved l (set_cursor l c).
Proof. unfold moved; simpl; auto. Qed.

(** ** Reading at the cursor *)

Lemma eof_true l : eof l = true <-> _cursor l = length (_source l).
Proof. unfold eof. apply Nat.eqb_eq. Qed.

Lemma eof_false l : eof l = false <-> _cursor l <> length (_source l).
Proof. unfold eof. apply Nat.eqb_neq. Qed.

Lemma eof_valid l : eof l = true -> valid l.
Proof. unfold valid. intros H%eof_true. lia. Qed.

Lemma deref_Ok l c : deref l = Ok c -> _cursor l < length (_source l).
Proof.
  unfold deref. destruct (nth_error _ _) eqn:E; [|discriminate].
  intros _. apply nth_error_Some. congruence.
Qed.

Lemma deref_at_end l : length (_source l) <= _cursor l -> deref l = Fault OutOfBounds.
Proof.
  intros H. unfold deref. apply nth_error_None in H. now rewrite H.
Qed.

Lemma at_char_Ok p l b : at_char p l = Ok b -> _cursor l < length (_source l).
Proof.
  unfold at_char. destruct (deref l) eqn:E; [|discriminate].
  intros _. eapply deref_Ok; eauto.
Qed.

(** In a valid state [match(substring)] reads inside the buffer and tells
    whether the rest of the source starts with [substring]. *)
Lemma match_sv_valid sub l :
  valid l ->
  match_sv sub l = Ok (starts_with sub (skipn (_cursor l) (_source l))).
Proof.
  unfold valid, match_sv, distance_to_end, size_t_of_ptrdiff, read_view.
  intros V.
  destruct (Z.ltb_spec (Z.of_nat (length (_source l)) - Z.of_nat (_cursor l)) 0);
    [lia|].
  destruct (Z.leb_spec (Z.of_nat (length sub))
              (Z.of_nat (length (_source l)) - Z.of_nat (_cursor l))).
  - rewrite length_firstn, length_skipn.
    replace (Nat.min _ _) with (length sub) by lia.
    now rewrite Nat.eqb_refl.
  - unfold starts_with.
    destruct (sv_eqb sub _) eqn:E; [|reflexivity].
    apply sv_eqb_eq in E. apply (f_equal (@length ascii)) in E.
    rewrite length_firstn, length_skipn in E. lia.
Qed.

Lemma match_sv_true sub l :
  valid l -> match_sv sub l = Ok true ->
  _cursor l + length sub <= length (_source l).
Proof.
  intros V H. rewrite (match_sv_valid _ _ V) in H.
  injection H as H. apply starts_with_length in H.
  rewrite length_skipn in H. unfold valid in V. lia.
Qed.

(** ** skip and skip_until *)

Lemma skip_inv n l u l' :
  skip n l = Ok (u, l') ->
  (eof l = true /\ l' = l) \/
  (eof l = false /\ l' = set_cursor l (_cursor l + n)).
Proof.
  unfold skip. destruct (eof l); simpl; intros H; injection H as _ <-; auto.
Qed.

Lemma skip_moved n l u l' : skip n l = Ok (u, l') -> moved l l'.
Proof.
  intros [[_ ->]|[_ ->]]%skip_inv; [apply moved_refl|].
  apply moved_set_cursor. lia.
Qed.

Lemma skip_until_loop_inv stop fuel : forall l u l',
  skip_until_loop fuel stop l = Ok (u, l') ->
  moved l l' /\ (valid l -> valid l') /\ (eof l' = true \/ stop l' = Ok true).
Proof.
  induction fuel as [|fuel IH]; intros l u l' H; simpl in H.
  - destruct (eof l) eqn:E.
    + injection H as _ <-. auto using moved_refl.
    + destruct (stop l) as [[|]|] eqn:S; try discriminate.
      injection H as _ <-. auto using moved_refl.
  - destruct (eof l) eqn:E.
    + injection H as _ <-. auto using moved_refl.
    + destruct (stop l) as [[|]|] eqn:S; try discriminate.
      * injection H as _ <-. auto using moved_refl.
      * apply IH in H as (Mv & V & P). split; [|split]; [| |exact P].
        -- eapply moved_trans; [|exact Mv]. apply moved_set_cursor. lia.
        -- intros Vl. apply V. apply eof_false in E.
           unfold valid in *. simpl. lia.
Qed.

Lemma skip_until_inv stop l u l' :
  skip_until stop l = Ok (u, l') ->
  moved l l' /\ (valid l -> valid l') /\ (eof l' = true \/ stop l' = Ok true).
Proof. unfold skip_until. apply skip_until_loop_inv. Qed.

(** A call that starts by skipping up to a byte returns only from a valid
    state: from a cursor beyond the end the first test reads outside the
    buffer. *)
Lemma skip_until_at_char_valid p l u l' :
  skip_until (at_char p) l = Ok (u, l') -> valid l.
Proof.
  unfold skip_until. intros H.
  assert (eof l = true \/ exists b, at_char p l = Ok b) as [E|[b E]].
  { destruct (length (_source l) - _cursor l); simpl in H;
      destruct (eof l); auto; destruct (at_char p l); eauto; discriminate. }
  - now apply eof_valid.
  - apply at_char_Ok in E. unfold valid. lia.
Qed.

(** Skipping up to a byte: the cursor crosses a run of bytes that do not
    stop it and halts at the first byte that does, or at the end. *)
Lemma skip_until_loop_at_char p run : forall fuel pre rest v,
  forallb (fun c => negb (p c)) run = true ->
  match rest with [] => True | c :: _ => p c = true end ->
  length run <= fuel ->
  skip_until_loop fuel (at_char p)
    {| _source := pre ++ run ++ rest; _cursor := length pre; value := v |}
  = Ok (tt, {| _source := pre ++ run ++ rest;
               _cursor := length pre + length run; value := v |}).
Proof.
  induction run as [|c run IH]; intros fuel pre rest v Hrun Hrest Hfuel.
  - simpl app. rewrite Nat.add_0_r.
    assert (skip_until_loop 0 (at_char p)
              {| _source := pre ++ rest; _cursor := length pre; value := v |}
            = Ok (tt, {| _source := pre ++ rest; _cursor := length pre; value := v |})) as H0.
    { simpl. unfold eof, at_char, deref; simpl.
      destruct rest as [|r rest].
      - rewrite app_nil_r, Nat.eqb_refl. reflexivity.
      - rewrite length_app. simpl.
        destruct (Nat.eqb_spec (length pre) (length pre + S (length rest))); [lia|].
        rewrite nth_error_app2, Nat.sub_diag by lia. simpl. now rewrite Hrest. }
    destruct fuel; [exact H0|].
    simpl in *. destruct (eof _); [exact H0|].
    destruct (at_char p _) as [[|]|]; congruence.
  - simpl in Hrun. apply andb_true_iff in Hrun as [Hc Hrun].
    apply negb_true_iff in Hc.
    destruct fuel as [|fuel]; [simpl in Hfuel; lia|].
    simpl skip_until_loop. unfold eof at 1, at_char at 1, deref; simpl _source; simpl _cursor.
    rewrite length_app. simpl length.
    destruct (Nat.eqb_spec (length pre) (length pre + S (length (run ++ rest)))); [lia|].
    rewrite nth_error_app2, Nat.sub_diag by lia. simpl nth_error. cbv iota. rewrite Hc.
    unfold set_cursor; simpl.
    specialize (IH fuel (pre ++ [c]) rest v Hrun Hrest).
    rewrite <- app_assoc, length_app in IH. simpl in IH.
    replace (length pre + 1) with (S (length pre)) in IH by lia.
    rewrite IH by (simpl in Hfuel; lia).
    do 3 f_equal. lia.
Qed.

Lemma skip_until_at_char p pre run rest v :
  forallb (fun c => negb (p c)) run = true ->
  match rest with [] => True | c :: _ => p c = true end ->
  skip_until (at_char p)
    {| _source := pre ++ run ++ rest; _cursor := length pre; value := v |}
  = Ok (tt, {| _source := pre ++ run ++ rest;
               _cursor := length pre + length run; value := v |}).
Proof.
  intros Hrun Hrest. unfold skip_until.
  apply skip_until_loop_at_char; auto.
  simpl. rewrite !length_app. lia.
Qed.

(** Skipping up to a condition that never holds reaches the end. *)
Lemma skip_until_loop_never stop fuel : forall l,
  valid l ->
  length (_source l) - _cursor l <= fuel ->
  (forall i, _cursor l <= i < length (_source l) -> stop (set_cursor l i) = Ok false) ->
  skip_until_loop fuel stop l = Ok (tt, set_cursor l (length (_source l))).
Proof.
  induction fuel as [|fuel IH]; intros l V Hfuel Hstop; simpl.
  - destruct (eof l) eqn:E.
    + apply eof_true in E. f_equal. f_equal. apply Lexer_ext; simpl; auto.
    + apply eof_false in E. unfold valid in V. lia.
  - destruct (eof l) eqn:E.
    + apply eof_true in E. f_equal. f_equal. apply Lexer_ext; simpl; auto.
    + apply eof_false in E. unfold valid in V.
      assert (stop l = Ok false) as ->.
      { replace l with (set_cursor l (_cursor l)) at 1
          by (apply Lexer_ext; reflexivity).
        apply Hstop. lia. }
      rewrite IH.
      * reflexivity.
      * unfold valid; simpl; lia.
      * simpl; lia.
      * intros i Hi. simpl in Hi. apply (Hstop i). lia.
Qed.

Lemma skip_valid n l u l' :
  valid l -> _cursor l + n <= length (_source l) ->
  skip n l = Ok (u, l') -> valid l'.
Proof.
  intros V Hn [[_ ->]|[_ ->]]%skip_inv; [exact V|].
  unfold valid; simpl. lia.
Qed.

(** ** The fixed-token table *)

Lemma try_tokenize_inv name ty l r l' :
  valid l ->
  try_tokenize name ty l = Ok (r, l') ->
  match r with
  | None => l' = l /\ match_sv name l = Ok false
  | Some t =>
      t = {| type := ty; view := {| start := _cursor l; size := length name |} |} /\
      match_sv name l = Ok true /\ moved l l' /\ valid l'
  end.
Proof.
  intros V H. unfold try_tokenize in H.
  apply bind_inv in H as (b & l1 & Hq & H).
  apply query_inv in Hq as [-> Hm].
  destruct b.
  - apply bind_inv in H as (c & l1 & Hc & H). apply gets_inv in Hc as [-> ->].
    apply bind_inv in H as (u & l1 & Hs & H). apply ret_inv in H as [-> ->].
    split; [reflexivity|]. split; [exact Hm|]. split.
    + eapply skip_moved; eauto.
    + eapply skip_valid; eauto. now apply match_sv_true.
  - apply ret_inv in H as [-> ->]. auto.
Qed.

Lemma try_basic_tokens_inv table : forall l r l',
  valid l ->
  try_basic_tokens table l = Ok (r, l') ->
  match r with
  | None => l' = l
  | Some t =>
      moved l l' /\ valid l' /\
      exists name, In (name, type t) table /\
                   view t = {| start := _cursor l; size := length name |}
  end.
Proof.
  induction table as [|[name ty] table IH]; intros l r l' V H; simpl in H.
  - apply ret_inv in H as [-> ->]. reflexivity.
  - apply bind_inv in H as (r1 & l1 & Ht & H).
    apply try_tokenize_inv in Ht; [|exact V].
    destruct r1 as [t|].
    + destruct Ht as (-> & _ & Mv & V'). apply ret_inv in H as [-> ->].
      split; [exact Mv|]. split; [exact V'|].
      exists name. simpl. auto.
    + destruct Ht as [-> _]. apply IH in H; [|exact V].
      destruct r as [t|]; [|exact H].
      destruct H as (Mv & V' & name' & Hin & Hv).
      split; [exact Mv|]. split; [exact V'|].
      exists name'. simpl. auto.
Qed.

Lemma basic_tokens_type name ty :
  In (name, ty) basic_tokens -> carries_value ty = false /\ ty <> EndOfFile.
Proof.
  unfold basic_tokens. simpl.
  intros H. repeat (destruct H as [H|H]; [injection H as _ <-; split; [reflexivity|discriminate]|]).
  contradiction.
Qed.

(** ** The branches of next_token *)

Lemma skip_until_at_char_inv p l u l' :
  skip_until (at_char p) l = Ok (u, l') -> valid l /\ valid l' /\ moved l l'.
Proof.
  intros H. pose proof (skip_until_at_char_valid _ _ _ _ H) as V.
  apply skip_until_inv in H as (Mv & V' & _). auto.
Qed.

Lemma next_token_identifier_inv b l t l' :
  b <= _cursor l ->
  next_token_identifier b l = Ok (t, l') ->
  valid l' /\ _source l' = _source l /\ _cursor l <= _cursor l' /\
  value_after stod l t l' /\ type t <> EndOfFile.
Proof.
  intros Hb H. unfold next_token_identifier in H.
  apply bind_inv in H as (u & l1 & Hs & H).
  apply skip_until_at_char_inv in Hs as (_ & V1 & S1 & Val1 & C1).
  apply bind_inv in H as (c & l2 & Hc & H). apply gets_inv in Hc as [-> ->].
  apply bind_inv in H as (text & l2 & Hc & H). apply gets_inv in Hc as [-> ->].
  unfold value_after.
  destruct (sv_eqb _ (sv "return")); [|destruct (sv_eqb _ (sv "break"));
    [|destruct (sv_eqb _ (sv "continue"))]];
    try (apply ret_inv in H as [-> ->]; simpl; repeat split; auto; discriminate).
  apply bind_inv in H as (u' & l2 & Hv & H). apply ret_inv in H as [-> ->].
  unfold set_value_m in Hv. injection Hv as _ <-. simpl.
  repeat split; auto; try discriminate. now rewrite S1.
Qed.

Lemma next_token_numeric_inv b l t l' :
  valid l -> b <= _cursor l ->
  next_token_numeric stod b l = Ok (t, l') ->
  valid l' /\ _source l' = _source l /\ _cursor l <= _cursor l' /\
  value_after stod l t l' /\ type t <> EndOfFile.
Proof.
  intros V Hb H. unfold next_token_numeric in H.
  apply bind_inv in H as (u & l1 & Hs & H).
  apply skip_until_at_char_inv in Hs as (_ & V1 & S1 & Val1 & C1).
  apply bind_inv in H as (point & l2 & Hq & H). apply query_inv in Hq as [-> Hm].
  unfold value_after. destruct point.
  - apply bind_inv in H as (u1 & l2 & Hk & H).
    pose proof (skip_moved _ _ _ _ Hk) as (S2 & Val2 & C2).
    eapply skip_valid in Hk; [|exact V1|now apply match_sv_true in Hm].
    apply bind_inv in H as (u2 & l3 & Hs & H).
    apply skip_until_at_char_inv in Hs as (_ & V3 & S3 & Val3 & C3).
    apply bind_inv in H as (text & l4 & Hc & H). apply gets_inv in Hc as [-> ->].
    destruct (stod _) as [d|] eqn:Ed; [|discriminate].
    apply bind_inv in H as (u' & l4 & Hv & H).
    unfold set_value_m in Hv. injection Hv as _ <-.
    apply bind_inv in H as (c & l4 & Hc & H). apply gets_inv in Hc as [-> ->].
    apply ret_inv in H as [-> ->]. simpl.
    repeat split; auto; try discriminate; try congruence; try lia.
    exists d. split; [|reflexivity]. rewrite <- Ed. do 2 f_equal. congruence.
  - apply bind_inv in H as (text & l4 & Hc & H). apply gets_inv in Hc as [-> ->].
    destruct (stoll _) as [z|] eqn:Ez; [|discriminate].
    apply bind_inv in H as (u' & l4 & Hv & H).
    unfold set_value_m in Hv. injection Hv as _ <-.
    apply bind_inv in H as (c & l4 & Hc & H). apply gets_inv in Hc as [-> ->].
    apply ret_inv in H as [-> ->]. simpl.
    repeat split; auto; try discriminate; try congruence; try lia.
    exists z. split; [|reflexivity]. rewrite <- Ez. do 2 f_equal. congruence.
Qed.

(** Lines 117-126: white space, then at most one comment. *)
Lemma skip_comment_inv (b : bool) l u l' :
  valid l ->
  (if b then skip_until_char "010"%char
   else bind (query (match_sv (sv "/*")))
          (fun block_comment : bool =>
             if block_comment then skip_beyond_sv (sv "*/") else ret tt)) l
  = Ok (u, l') ->
  valid l' /\ moved l l'.
Proof.
  intros V H. destruct b.
  - apply skip_until_at_char_inv in H as (_ & V' & Mv). auto.
  - apply bind_inv in H as (bc & l1 & Hq & H). apply query_inv in Hq as [-> Hm].
    destruct bc.
    + unfold skip_beyond_sv in H.
      apply bind_inv in H as (u1 & l1 & Hs & Hk).
      apply skip_until_inv in Hs as (Mv1 & V1 & Stop). specialize (V1 V).
      pose proof (skip_moved _ _ _ _ Hk) as Mv2.
      split; [|eapply moved_trans; eauto].
      destruct Stop as [E|Hstop].
      * apply skip_inv in Hk as [[_ ->]|[E' _]]; [exact V1|congruence].
      * eapply skip_valid; [exact V1| |exact Hk]. now apply match_sv_true.
    + apply ret_inv in H as [_ ->]. auto using moved_refl.
Qed.

(** What every returning call of [next_token] has done. *)
Lemma next_token_inv l t l' :
  next_token stod l = Ok (t, l') ->
  valid l /\ valid l' /\ _source l' = _source l /\ _cursor l <= _cursor l' /\
  value_after stod l t l' /\
  (type t = EndOfFile ->
   eof l' = true /\ view t = {| start := _cursor l'; size := 1 |}).
Proof.
  intros H. unfold next_token in H.
  apply bind_inv in H as (u & l1 & Hs & H).
  apply skip_until_at_char_inv in Hs as (V & V1 & S1 & Val1 & C1).
  apply bind_inv in H as (lc & l2 & Hq & H). apply query_inv in Hq as [-> _].
  apply bind_inv in H as (u2 & l2 & Hc & H).
  apply skip_comment_inv in Hc as (V2 & S2 & Val2 & C2); [|exact V1].
  apply bind_inv in H as (at_end & l3 & Hc & H). apply gets_inv in Hc as [-> ->].
  assert (_source l2 = _source l) as S by congruence.
  assert (value l2 = value l) as Val by congruence.
  assert (_cursor l <= _cursor l2) as C by lia.
  clear S1 Val1 C1 S2 Val2 C2 V1 l1 u u2 lc.
  split; [exact V|].
  destruct (eof l2) eqn:E.
  - apply bind_inv in H as (c & l3 & Hc & H). apply gets_inv in Hc as [-> ->].
    apply ret_inv in H as [-> ->]. unfold value_after. simpl. auto 10.
  - apply bind_inv in H as (b & l3 & Hc & H). apply gets_inv in Hc as [-> ->].
    apply bind_inv in H as (r & l3 & Ht & H).
    apply try_basic_tokens_inv in Ht; [|exact V2].
    destruct r as [tk|].
    + destruct Ht as ((S3 & Val3 & C3) & V3 & name & Hin & Hv).
      apply ret_inv in H as [-> ->].
      apply basic_tokens_type in Hin as [Hcv Hne].
      repeat split; try congruence; try lia.
      unfold value_after. destruct (type tk); try discriminate; congruence.
    + subst l3.
      apply bind_inv in H as (first & l3 & Hq & H). apply query_inv in Hq as [-> Hd].
      destruct (is_first_identifier_char first).
      * apply next_token_identifier_inv in H as (V' & S' & C' & Hval & Hne); [|lia].
        repeat split; try congruence; try lia.
        unfold value_after in *. rewrite <- S.
        destruct (type t); try rewrite <- Val; auto.
      * apply bind_inv in H as (c & l3 & Hq & H). apply query_inv in Hq as [-> _].
        destruct (isdigit c).
        -- apply next_token_numeric_inv in H as (V' & S' & C' & Hval & Hne);
             [|exact V2|lia].
           repeat split; try congruence; try lia.
           unfold value_after in *. rewrite <- S.
           destruct (type t); try rewrite <- Val; auto.
        -- apply bind_inv in H as (cur & l3 & Hc & H). apply gets_inv in Hc as [-> ->].
           apply bind_inv in H as (u & l3 & Hc & H). injection Hc as _ <-.
           apply ret_inv in H as [-> ->]. unfold value_after. simpl.
           apply deref_Ok in Hd. unfold valid. simpl.
           repeat split; auto; try discriminate; lia.
Qed.

(** ** Running the lexer forward *)

Lemma skipn_cons_valid l c rest :
  skipn (_cursor l) (_source l) = c :: rest ->
  valid l /\ eof l = false /\ deref l = Ok c.
Proof.
  intros H.
  assert (_cursor l < length (_source l)) as Hlt.
  { apply (f_equal (@length ascii)) in H. rewrite length_skipn in H.
    simpl in H. lia. }
  split; [unfold valid; lia|]. split; [apply eof_false; lia|].
  unfold deref. rewrite <- (firstn_skipn (_cursor l) (_source l)) at 1.
  rewrite nth_error_app2 by (rewrite length_firstn; lia).
  rewrite length_firstn, H.
  replace (_cursor l - Nat.min _ _) with 0 by lia. reflexivity.
Qed.

(** The cursor crosses the run [run] and stops before [rest]. *)
Lemma skip_until_run p l run rest :
  valid l ->
  skipn (_cursor l) (_source l) = run ++ rest ->
  forallb (fun c => negb (p c)) run = true ->
  match rest with [] => True | c :: _ => p c = true end ->
  skip_until (at_char p) l = Ok (tt, set_cursor l (_cursor l + length run)).
Proof.
  destruct l as [src cur v]. unfold valid, set_cursor. simpl.
  intros V Hs Hrun Hrest.
  pose proof (firstn_skipn cur src) as Hsrc. rewrite Hs in Hsrc.
  assert (cur = length (firstn cur src)) as Hlen
    by (rewrite length_firstn; lia).
  revert Hsrc Hlen. generalize (firstn cur src) as pre.
  intros pre <- ->.
  now apply skip_until_at_char.
Qed.

Lemma skip_until_stays p l c rest :
  skipn (_cursor l) (_source l) = c :: rest ->
  p c = true ->
  skip_until (at_char p) l = Ok (tt, l).
Proof.
  intros Hs Hp. destruct (skipn_cons_valid _ _ _ Hs) as (V & _ & _).
  rewrite (skip_until_run p l [] (c :: rest)); auto.
  do 2 f_equal. apply Lexer_ext; simpl; auto.
Qed.

Lemma try_basic_tokens_none l c rest :
  skipn (_cursor l) (_source l) = c :: rest ->
  is_basic_char c = false ->
  try_basic_tokens basic_tokens l = Ok (None, l).
Proof.
  intros Hs. destruct (skipn_cons_valid _ _ _ Hs) as (V & _ & _).
  unfold is_basic_char.
  assert (Forall (fun entry => length (fst entry) = 1) basic_tokens) as Hone
    by (unfold basic_tokens; repeat constructor).
  revert Hone. generalize basic_tokens as table.
  induction table as [|[name ty] table IH]; intros Hone Hc; simpl in *.
  - reflexivity.
  - apply orb_false_iff in Hc as [Hname Hc].
    apply Forall_cons_iff in Hone as [Hlen Hone]. simpl in Hlen.
    unfold bind at 1, try_tokenize, bind at 1, query.
    rewrite (match_sv_valid _ _ V), Hs.
    assert (starts_with name (c :: rest) = false) as ->.
    { destruct name as [|x [|y name]]; try discriminate.
      rewrite starts_with_cons. cbn [sv_eqb] in Hname.
      rewrite andb_true_r in Hname. now rewrite Hname. }
    unfold ret at 1. now apply IH.
Qed.

(** With the cursor on a byte that is neither white space, nor the start of
    a comment, nor a fixed token, [next_token] goes to one of its last
    three branches. *)
Lemma next_token_dispatch l c rest :
  skipn (_cursor l) (_source l) = c :: rest ->
  isspace c = false -> c <> "/"%char -> is_basic_char c = false ->
  next_token stod l =
  if is_first_identifier_char c then next_token_identifier (_cursor l) l
  else if isdigit c then next_token_numeric stod (_cursor l) l
  else Ok ({| type := Unexpected; view := {| start := _cursor l; size := 1 |} |},
           set_cursor l (S (_cursor l))).
Proof.
  intros Hs Hsp Hslash Hbasic.
  destruct (skipn_cons_valid _ _ _ Hs) as (V & E & D).
  assert (forall x, match_sv ("/"%char :: x) l = Ok false) as Hm.
  { intros x. rewrite (match_sv_valid _ _ V), Hs, starts_with_cons.
    destruct (Ascii.eqb_spec "/"%char c); [congruence|reflexivity]. }
  unfold next_token.
  unfold bind at 1. rewrite (skip_until_stays _ l c rest Hs) by now rewrite Hsp.
  unfold bind at 1, query at 1. change (sv "//") with ("/"%char :: sv "/"). rewrite Hm.
  unfold bind at 1, bind at 1, query at 1. change (sv "/*") with ("/"%char :: sv "*").
  rewrite Hm. unfold ret at 1.
  unfold bind at 1, gets at 1. rewrite E.
  unfold bind at 1, gets at 1.
  unfold bind at 1. rewrite (try_basic_tokens_none l c rest Hs Hbasic).
  unfold bind at 1, query at 1. rewrite D.
  destruct (is_first_identifier_char c); [reflexivity|].
  unfold bind at 1, query at 1. rewrite D.
  destruct (isdigit c); reflexivity.
Qed.

(** * The specification *)

(** C9.  On the inputs "return", "break" and "continue" the first call
    returns the kinds [Return], [Break] and [Continue], with a view of the
    whole input and [value] left as it was.  On every other input made of a
    letter followed by letters and digits it returns [Identifier] with a
    view of the whole input, and [value] is the text of the input. *)
Theorem reserved_words_and_identifiers :
  next_token stod (Lexer_new (sv "return"))
  = Ok ({| type := Return; view := {| start := 0; size := 6 |} |},
        {| _source := sv "return"; _cursor := 6; value := VNone |}) /\
  next_token stod (Lexer_new (sv "break"))
  = Ok ({| type := Break; view := {| start := 0; size := 5 |} |},
        {| _source := sv "break"; _cursor := 5; value := VNone |}) /\
  next_token stod (Lexer_new (sv "continue"))
  = Ok ({| type := Continue; view := {| start := 0; size := 8 |} |},
        {| _source := sv "continue"; _cursor := 8; value := VNone |}) /\
  forall c s,
    is_first_identifier_char c = true ->
    forallb is_identifier_char s = true ->
    c :: s <> sv "return" -> c :: s <> sv "break" -> c :: s <> sv "continue" ->
    next_token stod (Lexer_new (c :: s))
    = Ok ({| type := Identifier;
             view := {| start := 0; size := length (c :: s) |} |},
          {| _source := c :: s; _cursor := length (c :: s);
             value := VString (c :: s) |}).
Proof.
  split; [reflexivity|]. split; [reflexivity|]. split; [reflexivity|].
  intros c s Hc Hs Hret Hbrk Hcont.
  destruct (isalpha_class c Hc) as (Hsp & Hslash & Hbasic & _).
  rewrite (next_token_dispatch (Lexer_new (c :: s)) c s); auto.
  rewrite Hc. unfold next_token_identifier.
  unfold bind at 1.
  rewrite (skip_until_run _ (Lexer_new (c :: s)) (c :: s) []); simpl _cursor;
    simpl _source; auto.
  - unfold bind at 1, gets at 1. unfold bind at 1, gets at 1.
    unfold view_text, make_view, set_cursor.
    cbn [_source _cursor value size start Lexer_new skipn Nat.add].
    rewrite Nat.sub_0_r, firstn_all.
    destruct (sv_eqb (c :: s) (sv "return")) eqn:E1;
      [apply sv_eqb_eq in E1; contradiction|].
    destruct (sv_eqb (c :: s) (sv "break")) eqn:E2;
      [apply sv_eqb_eq in E2; contradiction|].
    destruct (sv_eqb (c :: s) (sv "continue")) eqn:E3;
      [apply sv_eqb_eq in E3; contradiction|].
    reflexivity.
  - unfold valid; simpl; lia.
  - now rewrite app_nil_r.
  - cbn [forallb]. unfold is_identifier_char at 1. rewrite Hc. simpl.
    rewrite forallb_forall in *. intros x Hx. rewrite (Hs x Hx). reflexivity.
Qed.

(** C4, amended.  On every non-empty input made of decimal digits whose
    value fits a [long long], the first call returns [LiteralInt] with a
    view of the whole input, and [value] is the number the digits denote. *)
Theorem digits_in_range_are_LiteralInt (digits : list ascii) :
  digits <> [] ->
  forallb isdigit digits = true ->
  (decimal_value digits <= LLONG_MAX)%Z ->
  next_token stod (Lexer_new digits)
  = Ok ({| type := LiteralInt;
           view := {| start := 0; size := length digits |} |},
        {| _source := digits; _cursor := length digits;
           value := VInt (decimal_value digits) |}).
Proof.
  intros Hne Hall Hmax. destruct digits as [|c ds]; [contradiction|]. clear Hne.
  pose proof Hall as [Hc _]%andb_true_iff.
  destruct (isdigit_class c Hc) as (Hsp & Hslash & Hbasic & Halpha & _).
  rewrite (next_token_dispatch (Lexer_new (c :: ds)) c ds); auto.
  unfold is_first_identifier_char. rewrite Halpha, Hc.
  unfold next_token_numeric. unfold bind at 1.
  rewrite (skip_until_run _ (Lexer_new (c :: ds)) (c :: ds) []);
    [ | unfold valid; simpl; lia | simpl; now rewrite app_nil_r
      | rewrite forallb_forall in *; intros x Hx; now rewrite (Hall x Hx)
      | exact I ].
  unfold bind at 1, query at 1. rewrite match_sv_valid by (unfold valid; simpl; lia).
  unfold set_cursor, Lexer_new. cbn [_source _cursor value Nat.add].
  rewrite skipn_all. change (starts_with (sv ".") []) with false. cbv iota.
  unfold bind at 1, string_between, gets at 1, view_text, make_view.
  cbn [_source _cursor value size start skipn].
  rewrite Nat.sub_0_r, firstn_all, (stoll_digits _ _ Hall).
  destruct (Z.leb_spec (decimal_value (c :: ds)) LLONG_MAX); [|lia].
  unfold bind, set_value_m, gets, ret, set_value.
  cbn [_source _cursor value]. now rewrite Nat.sub_0_r.
Qed.


(** ** Memory safety and termination *)

Lemma returns_or_throws_bind {A B} (m : M A) (f : A -> M B) l :
  returns_or_throws (m l) ->
  (forall a l1, m l = Ok (a, l1) -> returns_or_throws (f a l1)) ->
  returns_or_throws (bind m f l).
Proof. unfold bind. destruct (m l) as [[a l1]|e]; auto. Qed.

Lemma returns_or_throws_Ok {A} (r : result A) :
  (exists a, r = Ok a) -> returns_or_throws r.
Proof. intros [a ->]. exact I. Qed.

Lemma skip_until_loop_total stop fuel : forall l,
  valid l ->
  length (_source l) - _cursor l <= fuel ->
  (forall l1, valid l1 -> eof l1 = false -> exists b, stop l1 = Ok b) ->
  exists l', skip_until_loop fuel stop l = Ok (tt, l').
Proof.
  induction fuel as [|fuel IH]; intros l V Hfuel Hstop; simpl;
    destruct (eof l) eqn:E; eauto.
  - apply eof_false in E. unfold valid in V. lia.
  - destruct (Hstop l V E) as [[|] ->]; eauto.
    apply eof_false in E. unfold valid in V.
    apply IH; [unfold valid; simpl; lia | simpl; lia | exact Hstop].
Qed.

Lemma skip_until_at_char_total p l :
  valid l -> exists l', skip_until (at_char p) l = Ok (tt, l').
Proof.
  intros V. apply skip_until_loop_total; [exact V|lia|].
  intros l1 V1 E1. unfold at_char, deref.
  apply eof_false in E1. unfold valid in V1.
  destruct (nth_error (_source l1) (_cursor l1)) eqn:N; eauto.
  apply nth_error_None in N. lia.
Qed.

Lemma skip_until_sv_total sub l :
  valid l -> exists l', skip_until_sv sub l = Ok (tt, l').
Proof.
  intros V. apply skip_until_loop_total; [exact V|lia|].
  intros l1 V1 _. rewrite (match_sv_valid _ _ V1). eauto.
Qed.

Lemma try_basic_tokens_total table : forall l,
  valid l -> exists r l', try_basic_tokens table l = Ok (r, l').
Proof.
  induction table as [|[name ty] table IH]; intros l V; simpl.
  - unfold ret. eauto.
  - unfold bind at 1, try_tokenize, bind at 1, query.
    rewrite (match_sv_valid _ _ V).
    destruct (starts_with name _).
    + unfold bind, gets, skip, ret. destruct (negb (eof l)); eauto.
    + unfold ret at 1. apply IH, V.
Qed.

Lemma next_token_identifier_total b l :
  valid l -> exists t l', next_token_identifier b l = Ok (t, l').
Proof.
  intros V. unfold next_token_identifier.
  destruct (skip_until_at_char_total (fun c => negb (is_identifier_char c)) l V)
    as [l1 H1].
  unfold bind at 1. rewrite H1. unfold bind, gets, ret, set_value_m.
  destruct (sv_eqb _ _); eauto. destruct (sv_eqb _ _); eauto.
  destruct (sv_eqb _ _); eauto.
Qed.

Lemma next_token_numeric_safe b l :
  valid l -> returns_or_throws (next_token_numeric stod b l).
Proof.
  intros V. unfold next_token_numeric.
  apply returns_or_throws_bind.
  { apply returns_or_throws_Ok.
    destruct (skip_until_at_char_total (fun c => negb (isdigit c)) l V); eauto. }
  intros u l1 (_ & V1 & _)%skip_until_at_char_inv.
  apply returns_or_throws_bind.
  { unfold query. now rewrite (match_sv_valid _ _ V1). }
  intros point l2 [-> Hm]%query_inv. destruct point.
  - apply returns_or_throws_bind; [unfold skip; now destruct (negb (eof l1))|].
    intros u1 l2 Hk.
    eapply skip_valid in Hk; [|exact V1|now apply match_sv_true in Hm].
    apply returns_or_throws_bind.
    { apply returns_or_throws_Ok.
      destruct (skip_until_at_char_total (fun c => negb (isdigit c)) l2 Hk); eauto. }
    intros u2 l3 _.
    apply returns_or_throws_bind; [exact I|]. intros text l4 _.
    destruct (stod text); exact I.
  - apply returns_or_throws_bind; [exact I|]. intros text l4 _.
    pose proof (stoll_returns_or_throws text) as Hst.
    destruct (stoll text) as [z|e]; [exact I|exact Hst].
Qed.

(** From a cursor inside the buffer or at its end, [next_token] reads no
    byte outside the buffer and its loops end: it returns a token, or the
    exception of a numeric conversion escapes. *)
Lemma next_token_safe l : valid l -> returns_or_throws (next_token stod l).
Proof.
  intros V. unfold next_token.
  apply returns_or_throws_bind.
  { apply returns_or_throws_Ok.
    destruct (skip_until_at_char_total (fun c => negb (isspace c)) l V); eauto. }
  intros u l1 (_ & V1 & _)%skip_until_at_char_inv.
  apply returns_or_throws_bind.
  { unfold query. now rewrite (match_sv_valid _ _ V1). }
  intros lc l2 [-> _]%query_inv.
  apply returns_or_throws_bind.
  { destruct lc.
    - apply returns_or_throws_Ok.
      destruct (skip_until_at_char_total
                  (fun c => Ascii.eqb c "010"%char) l1 V1); eauto.
    - apply returns_or_throws_bind.
      { unfold query. now rewrite (match_sv_valid _ _ V1). }
      intros bc l2 [-> _]%query_inv. destruct bc; [|exact I].
      unfold skip_beyond_sv. apply returns_or_throws_bind.
      + apply returns_or_throws_Ok.
        destruct (skip_until_sv_total (sv "*/") l1 V1); eauto.
      + intros u1 l2 _. unfold skip. now destruct (negb (eof l2)). }
  intros u2 l2 [V2 _]%skip_comment_inv; [|exact V1].
  apply returns_or_throws_bind; [exact I|].
  intros at_end l3 [-> ->]%gets_inv.
  destruct (eof l2) eqn:E; [exact I|].
  apply returns_or_throws_bind; [exact I|].
  intros token_begin l3 [-> ->]%gets_inv.
  apply returns_or_throws_bind.
  { apply returns_or_throws_Ok.
    destruct (try_basic_tokens_total basic_tokens l2 V2) as (r & l3 & ->). eauto. }
  intros r l3 Ht. apply try_basic_tokens_inv in Ht; [|exact V2].
  destruct r as [tk|]; [exact I|]. subst l3.
  assert (exists c, deref l2 = Ok c) as [c D].
  { unfold deref. apply eof_false in E. unfold valid in V2.
    destruct (nth_error (_source l2) (_cursor l2)) eqn:N; eauto.
    apply nth_error_None in N. lia. }
  apply returns_or_throws_bind; [unfold query; now rewrite D|].
  intros first l3 [-> _]%query_inv.
  destruct (is_first_identifier_char first).
  { apply returns_or_throws_Ok.
    destruct (next_token_identifier_total (_cursor l2) l2 V2) as (t & l3 & ->).
    eauto. }
  apply returns_or_throws_bind; [unfold query; now rewrite D|].
  intros c' l3 [-> _]%query_inv.
  destruct (isdigit c'); [now apply next_token_numeric_safe|exact I].
Qed.

(** At the end of the buffer [next_token] returns [EndOfFile] and changes
    nothing. *)
Lemma next_token_at_eof l :
  eof l = true ->
  next_token stod l
  = Ok ({| type := EndOfFile; view := {| start := _cursor l; size := 1 |} |}, l).
Proof.
  intros E. pose proof (eof_valid _ E) as V.
  assert (skipn (_cursor l) (_source l) = []) as Hs.
  { apply eof_true in E. rewrite E. apply skipn_all. }
  assert (forall stop, skip_until stop l = Ok (tt, l)) as Hskip.
  { intros stop. unfold skip_until.
    destruct (length (_source l) - _cursor l); simpl; now rewrite E. }
  unfold next_token. unfold bind at 1. rewrite Hskip.
  unfold bind at 1, query at 1. rewrite (match_sv_valid _ _ V), Hs.
  change (starts_with (sv "//") []) with false. cbv iota beta.
  unfold bind at 1, bind at 1, query at 1. rewrite (match_sv_valid _ _ V), Hs.
  change (starts_with (sv "/*") []) with false. cbv iota beta.
  unfold ret at 1, bind at 1, gets at 1. rewrite E. reflexivity.
Qed.

(** C5.  Once a call has returned [EndOfFile], any number of further calls
    return the same [EndOfFile] token and leave the lexer, cursor and value
    included, as it was. *)
Theorem EndOfFile_is_terminal l t l' (n : nat) :
  next_token stod l = Ok (t, l') ->
  type t = EndOfFile ->
  next_tokens stod n l' = Ok (repeat t n, l').
Proof.
  intros H Ht.
  apply next_token_inv in H as (_ & _ & _ & _ & _ & Heof).
  destruct (Heof Ht) as [E Hview].
  assert (t = {| type := EndOfFile; view := {| start := _cursor l'; size := 1 |} |})
    as -> by (destruct t; simpl in *; congruence).
  induction n as [|n IH]; simpl; [reflexivity|].
  unfold bind at 1. rewrite (next_token_at_eof _ E).
  unfold bind at 1. rewrite IH. reflexivity.
Qed.

(** C7.  In every state a lexer over [source] can reach, the buffer is
    still [source] and the cursor is an offset into it or its end; a call of
    [next_token] from such a state never moves the cursor backwards and
    leaves it within the same bounds. *)
Theorem cursor_never_rewinds_nor_leaves_buffer (source : list ascii) l :
  reachable stod source l ->
  _source l = source /\ _cursor l <= length source /\
  forall t l', next_token stod l = Ok (t, l') ->
               _cursor l <= _cursor l' /\ _cursor l' <= length source.
Proof.
  intros R.
  assert (_source l = source /\ _cursor l <= length source) as [S C].
  { induction R as [|l t l' R [S C] H].
    - simpl. split; [reflexivity|lia].
    - apply next_token_inv in H as (_ & V' & S' & _).
      unfold valid in V'. split; [congruence|]. rewrite <- S, <- S'. exact V'. }
  split; [exact S|]. split; [exact C|].
  intros t l' H. apply next_token_inv in H as (_ & V' & S' & C' & _).
  unfold valid in V'. split; [exact C'|]. rewrite <- S, <- S'. exact V'.
Qed.


(** C10.  A returning call of [next_token] leaves [value] as it was unless
    the token it returns is an [Identifier], a [LiteralInt] or a
    [LiteralFloat]; for these three kinds [value] is the text of the
    identifier and the number read from the literal. *)
Theorem value_written_only_for_valued_tokens l t l' :
  next_token stod l = Ok (t, l') ->
  (carries_value (type t) = false -> value l' = value l) /\
  (carries_value (type t) = true -> value_after stod l t l').
Proof.
  intros H. apply next_token_inv in H as (_ & _ & _ & _ & Hval & _).
  split; intros Hc; [|exact Hval].
  unfold value_after in Hval. destruct (type t); try discriminate; exact Hval.
Qed.

(** A path on which the table entry for the newline is used: a newline
    that ends a line comment is left at the cursor by [skip_until('\n')]
    and is returned as [EndOfLine].  (The other one is a newline directly
    after the "*/" of a block comment.) *)
Lemma newline_after_line_comment_is_EndOfLine :
  next_tokens stod 3 (Lexer_new (sv "// c" ++ ["010"%char] ++ sv "42"))
  = Ok ([ {| type := EndOfLine; view := {| start := 4; size := 1 |} |};
          {| type := LiteralInt; view := {| start := 5; size := 2 |} |};
          {| type := EndOfFile; view := {| start := 7; size := 1 |} |} ],
        {| _source := sv "// c" ++ ["010"%char] ++ sv "42"; _cursor := 7;
           value := VInt 42 |}).
Proof. reflexivity. Qed.

(** White space before a token or before a comment is skipped, and a
    comment directly followed by a token gives that token. *)
Lemma space_before_comment_and_token_is_skipped :
  next_tokens stod 2 (Lexer_new (sv "  /* a */42"))
  = Ok ([ {| type := LiteralInt; view := {| start := 9; size := 2 |} |};
          {| type := EndOfFile; view := {| start := 11; size := 1 |} |} ],
        {| _source := sv "  /* a */42"; _cursor := 11; value := VInt 42 |}) /\
  next_tokens stod 2 (Lexer_new (sv " 42"))
  = Ok ([ {| type := LiteralInt; view := {| start := 1; size := 2 |} |};
          {| type := EndOfFile; view := {| start := 3; size := 1 |} |} ],
        {| _source := sv " 42"; _cursor := 3; value := VInt 42 |}).
Proof. split; reflexivity. Qed.

(** X21.  An input of white space only, newlines included, gives
    [EndOfFile] on the first call, with the cursor at the end of the
    buffer. *)
Lemma whitespace_only_is_EndOfFile (ws : list ascii) :
  forallb isspace ws = true ->
  next_token stod (Lexer_new ws)
  = Ok ({| type := EndOfFile; view := {| start := length ws; size := 1 |} |},
        {| _source := ws; _cursor := length ws; value := VNone |}).
Proof.
  intros Hws. unfold next_token. unfold bind at 1.
  rewrite (skip_until_run _ (Lexer_new ws) ws []);
    [ | unfold valid; simpl; lia | simpl; now rewrite app_nil_r
      | rewrite forallb_forall in *; intros x Hx; now rewrite (Hws x Hx)
      | exact I ].
  set (l1 := set_cursor (@Lexer_new double ws) (_cursor (@Lexer_new double ws) + length ws)).
  assert (eof l1 = true) as E by (apply eof_true; reflexivity).
  apply (next_token_at_eof l1) in E. unfold next_token in E.
  unfold bind at 1 in E.
  assert (skip_until (at_char (fun c => negb (isspace c))) l1 = Ok (tt, l1)) as Hskip.
  { unfold skip_until. simpl. rewrite Nat.sub_diag. simpl.
    unfold eof. simpl. now rewrite Nat.eqb_refl. }
  rewrite Hskip in E. exact E.
Qed.

(** C1.  On the input made of one newline the first call skips the newline
    as white space and returns [EndOfFile], not [EndOfLine]; the cursor is
    then at the end of the buffer. *)
Theorem newline_alone_is_skipped_as_whitespace :
  next_token stod (Lexer_new ["010"%char])
  = Ok ({| type := EndOfFile; view := {| start := 1; size := 1 |} |},
        {| _source := ["010"%char]; _cursor := 1; value := VNone |}).
Proof. reflexivity. Qed.

(** C2.  On the input "/* a */ 42" the first call returns [Unexpected] for
    the space that follows the comment; [LiteralInt] for "42" and
    [EndOfFile] come on the second and third calls. *)
Theorem space_after_block_comment_is_Unexpected :
  next_tokens stod 3 (Lexer_new (sv "/* a */ 42"))
  = Ok ([ {| type := Unexpected; view := {| start := 7; size := 1 |} |};
          {| type := LiteralInt; view := {| start := 8; size := 2 |} |};
          {| type := EndOfFile; view := {| start := 10; size := 1 |} |} ],
        {| _source := sv "/* a */ 42"; _cursor := 10; value := VInt 42 |}).
Proof. reflexivity. Qed.

(** Inside the buffer [match(char)] compares the byte at the cursor. *)
Lemma match_char_inside l (x c : ascii) :
  deref l = Ok x -> match_char c l = Ok (Ascii.eqb x c).
Proof. unfold match_char. now intros ->. Qed.

(** C3.  With the cursor at the end of the buffer, [match(char)] reads the
    byte one past the end: it does not answer false, it reads outside the
    buffer. *)
Theorem match_char_reads_past_the_end (source : list ascii) v (c : ascii) :
  match_char c {| _source := source; _cursor := length source; value := v |}
  = Fault OutOfBounds.
Proof. unfold match_char. now rewrite deref_at_end. Qed.

End LexerProofs.

(** * Instances *)

(** C9 on the identifier "foo1". *)
Lemma reserved_words_and_identifiers_witness :
  next_token stod_symbolic (Lexer_new (sv "foo1"))
  = Ok ({| type := Identifier; view := {| start := 0; size := 4 |} |},
        {| _source := sv "foo1"; _cursor := 4; value := VString (sv "foo1") |}).
Proof.
  apply (proj2 (proj2 (proj2 (reserved_words_and_identifiers stod_symbolic)))
           "f"%char (sv "oo1")); try reflexivity; discriminate.
Defined.

(** C4, amended, on "042". *)
Lemma digits_in_range_are_LiteralInt_witness :
  next_token stod_symbolic (Lexer_new (sv "042"))
  = Ok ({| type := LiteralInt; view := {| start := 0; size := 3 |} |},
        {| _source := sv "042"; _cursor := 3; value := VInt 42 |}).
Proof.
  apply (digits_in_range_are_LiteralInt stod_symbolic (sv "042"));
    [discriminate | reflexivity | vm_compute; discriminate].
Defined.

(** C4 as stated fails: the digits of 2^63 do not fit a [long long], and the
    [std::out_of_range] of [std::stoll] escapes [next_token]. *)
Lemma digits_out_of_range_throw :
  forallb isdigit (sv "9223372036854775808") = true /\
  next_token stod_symbolic (Lexer_new (sv "9223372036854775808"))
  = Fault OutOfRange.
Proof. split; reflexivity. Qed.

(** C5 on "x ", after the identifier has been returned. *)
Lemma EndOfFile_is_terminal_witness :
  next_tokens stod_symbolic 3
    {| _source := sv "x "; _cursor := 2; value := VString (sv "x") |}
  = Ok (repeat {| type := EndOfFile; view := {| start := 2; size := 1 |} |} 3,
        {| _source := sv "x "; _cursor := 2; value := VString (sv "x") |}).
Proof.
  apply (EndOfFile_is_terminal stod_symbolic
           {| _source := sv "x "; _cursor := 1; value := VString (sv "x") |});
    reflexivity.
Defined.

(** C7 on "a b", in the state the first call leaves. *)
Lemma cursor_never_rewinds_nor_leaves_buffer_witness :
  let l := {| _source := sv "a b"; _cursor := 1; value := VString (sv "a") |} in
  _source l = sv "a b" /\ _cursor l <= 3 /\
  forall t l', next_token stod_symbolic l = Ok (t, l') ->
               _cursor l <= _cursor l' /\ _cursor l' <= 3.
Proof.
  apply (cursor_never_rewinds_nor_leaves_buffer stod_symbolic (sv "a b")).
  apply (reachable_next stod_symbolic (sv "a b") (Lexer_new (sv "a b"))
           {| type := Identifier; view := {| start := 0; size := 1 |} |});
    [apply reachable_new | reflexivity].
Defined.



(** C10 on "x(": after the parenthesis [value] is still the identifier. *)
Lemma value_written_only_for_valued_tokens_witness :
  let l := {| _source := sv "x("; _cursor := 1; value := VString (sv "x") |} in
  let t := {| type := ParameterListBegin; view := {| start := 1; size := 1 |} |} in
  let l' := {| _source := sv "x("; _cursor := 2; value := VString (sv "x") |} in
  (carries_value (type t) = false -> value l' = value l) /\
  (carries_value (type t) = true -> value_after stod_symbolic l t l').
Proof.
  apply (value_written_only_for_valued_tokens stod_symbolic). reflexivity.
Defined.

(** * Further properties of the member functions *)

Lemma starts_with_iff (sub s : list ascii) :
  starts_with sub s = true <-> exists rest, s = sub ++ rest.
Proof.
  unfold starts_with. rewrite sv_eqb_eq. split.
  - intros H. exists (skipn (length sub) s).
    rewrite H at 1. symmetry. apply firstn_skipn.
  - intros [rest ->]. rewrite firstn_app, Nat.sub_diag, firstn_all.
    simpl. now rewrite app_nil_r.
Qed.

Section MemberFunctions.

Context {double : Type} (stod : list ascii -> option double).

Implicit Types l : @Lexer double.
Implicit Types v : @Value double.

Lemma set_cursor_same l : set_cursor l (_cursor l) = l.
Proof. apply Lexer_ext; reflexivity. Qed.

(** X1.  With the cursor inside the buffer or at its end,
    [match(substring)] reads no byte outside the buffer, and answers true
    exactly when the bytes from the cursor on start with [substring]. *)
Theorem match_sv_decides_prefix (substring : list ascii) l :
  valid l ->
  exists b,
    match_sv substring l = Ok b /\
    (b = true <->
     exists rest, skipn (_cursor l) (_source l) = substring ++ rest).
Proof.
  intros V. exists (starts_with substring (skipn (_cursor l) (_source l))).
  split; [now apply match_sv_valid | apply starts_with_iff].
Qed.

(** The loop of [skip_until] stops on the first position where the
    condition holds. *)
Lemma skip_until_loop_first stop (k : nat) : forall fuel l,
  _cursor l + k <= length (_source l) ->
  k <= fuel ->
  (forall i, _cursor l <= i < _cursor l + k -> stop (set_cursor l i) = Ok false) ->
  (_cursor l + k = length (_source l) \/
   stop (set_cursor l (_cursor l + k)) = Ok true) ->
  skip_until_loop fuel stop l = Ok (tt, set_cursor l (_cursor l + k)).
Proof.
  induction k as [|k IH]; intros fuel l Hlen Hfuel Hbefore Hat.
  - rewrite Nat.add_0_r in *. rewrite set_cursor_same in *.
    destruct (eof l) eqn:E.
    + destruct fuel; simpl; now rewrite E.
    + destruct Hat as [Hat|Hat]; [apply eof_false in E; contradiction|].
      destruct fuel; simpl; now rewrite E, Hat.
  - destruct fuel as [|fuel]; [lia|]. simpl.
    assert (eof l = false) as -> by (apply eof_false; lia).
    assert (stop l = Ok false) as ->.
    { rewrite <- (set_cursor_same l) at 1. apply Hbefore. lia. }
    rewrite IH; simpl.
    + do 2 f_equal. apply Lexer_ext; simpl; auto; lia.
    + lia.
    + lia.
    + intros i Hi. apply (Hbefore i). lia.
    + change (set_cursor (set_cursor l (S (_cursor l))) (S (_cursor l + k)))
        with (set_cursor l (S (_cursor l + k))).
      replace (S (_cursor l + k)) with (_cursor l + S k) by lia. exact Hat.
Qed.

(** X2.  [skip_until(stop_condition)] moves the cursor to the first
    position, from the cursor on, where the condition holds, or to the end
    of the buffer when it holds nowhere before; the condition is not
    evaluated beyond that position. *)
Theorem skip_until_stops_at_first stop l (k : nat) :
  _cursor l + k <= length (_source l) ->
  (forall i, _cursor l <= i < _cursor l + k -> stop (set_cursor l i) = Ok false) ->
  (_cursor l + k = length (_source l) \/
   stop (set_cursor l (_cursor l + k)) = Ok true) ->
  skip_until stop l = Ok (tt, set_cursor l (_cursor l + k)).
Proof.
  intros Hlen Hbefore Hat. unfold skip_until.
  apply skip_until_loop_first; auto. lia.
Qed.

Lemma match_sv_at l (sub : list ascii) (i : nat) :
  _cursor l <= i <= length (_source l) ->
  match_sv sub (set_cursor l i)
  = Ok (starts_with sub (skipn (i - _cursor l) (skipn (_cursor l) (_source l)))).
Proof.
  intros Hi. rewrite match_sv_valid by (unfold valid; simpl; lia).
  simpl. rewrite skipn_skipn. do 3 f_equal. lia.
Qed.

(** X3.  When [stop_string] first occurs [k] bytes after the cursor,
    [skip_beyond(stop_string)] leaves the cursor just after that
    occurrence; when it does not occur from the cursor on, the cursor is
    left at the end of the buffer, and not beyond. *)
Theorem skip_beyond_sv_first_occurrence (stop_string : list ascii) l :
  valid l ->
  (forall pre rest,
      skipn (_cursor l) (_source l) = pre ++ stop_string ++ rest ->
      (forall i, i < length pre ->
                 starts_with stop_string (skipn i (pre ++ stop_string ++ rest)) = false) ->
      skip_beyond_sv stop_string l
      = Ok (tt, set_cursor l (_cursor l + length pre + length stop_string))) /\
  (contains stop_string (skipn (_cursor l) (_source l)) = false ->
   skip_beyond_sv stop_string l = Ok (tt, set_cursor l (length (_source l)))).
Proof.
  intros V. unfold valid in V. split.
  - intros pre rest Hs Hfirst.
    assert (_cursor l + length pre + length stop_string <= length (_source l)) as Hlen.
    { apply (f_equal (@length ascii)) in Hs.
      rewrite length_skipn, !length_app in Hs. lia. }
    unfold skip_beyond_sv, skip_until_sv, bind, skip_until.
    rewrite (skip_until_loop_first _ (length pre)).
    + unfold skip, eof. cbn [_cursor _source set_cursor].
      destruct (Nat.eqb_spec (_cursor l + length pre) (length (_source l))) as [E|E];
        cbn [negb].
      * do 2 f_equal. apply Lexer_ext; simpl; auto. lia.
      * reflexivity.
    + lia.
    + lia.
    + intros i Hi. rewrite match_sv_at by lia. rewrite Hs. f_equal.
      apply Hfirst. lia.
    + right. rewrite match_sv_at by lia. rewrite Hs. f_equal.
      apply starts_with_iff. exists rest.
      replace (_cursor l + length pre - _cursor l) with (length pre) by lia.
      rewrite skipn_app, skipn_all, Nat.sub_diag. reflexivity.
  - intros Hno. unfold skip_beyond_sv, skip_until_sv, bind, skip_until.
    rewrite skip_until_loop_never; [ | exact V | lia | ].
    + unfold skip, eof. cbn [_cursor _source set_cursor].
      now rewrite Nat.eqb_refl.
    + intros i Hi. rewrite match_sv_at by lia. f_equal.
      now apply contains_skipn.
Qed.

(** X4.  [skip_beyond(stop_char)] leaves the cursor just after the first
    [stop_char] from the cursor on, and at the end of the buffer when there
    is none. *)
Theorem skip_beyond_char_first_occurrence (stop_char : ascii) l (run : list ascii) :
  valid l ->
  forallb (fun c => negb (Ascii.eqb c stop_char)) run = true ->
  (forall rest,
      skipn (_cursor l) (_source l) = run ++ stop_char :: rest ->
      skip_beyond_char stop_char l
      = Ok (tt, set_cursor l (_cursor l + length run + 1))) /\
  (skipn (_cursor l) (_source l) = run ->
   skip_beyond_char stop_char l = Ok (tt, set_cursor l (length (_source l)))).
Proof.
  intros V Hrun. split.
  - intros rest Hs. unfold skip_beyond_char, skip_until_char, bind.
    rewrite (skip_until_run _ l run (stop_char :: rest)); auto;
      [|simpl; apply Ascii.eqb_refl].
    assert (_cursor l + length run < length (_source l)) as Hlt.
    { apply (f_equal (@length ascii)) in Hs.
      rewrite length_skipn, length_app in Hs. simpl in Hs. lia. }
    unfold skip, eof, skip_default. cbn [_cursor _source set_cursor].
    destruct (Nat.eqb_spec (_cursor l + length run) (length (_source l))); [lia|].
    reflexivity.
  - intros Hs. unfold skip_beyond_char, skip_until_char, bind.
    rewrite (skip_until_run _ l run []); auto; [|now rewrite app_nil_r].
    assert (_cursor l + length run = length (_source l)) as Hlen.
    { apply (f_equal (@length ascii)) in Hs. rewrite length_skipn in Hs.
      unfold valid in V. lia. }
    unfold skip, eof. cbn [_cursor _source set_cursor].
    rewrite Hlen, Nat.eqb_refl. reflexivity.
Qed.

(** X5.  [next_char()] steps before it reads: it returns the byte after the
    one at the cursor, and with the cursor on the last byte of the buffer,
    or at its end, it reads outside the buffer. *)
Theorem next_char_reads_after_stepping l :
  (forall c rest,
      skipn (S (_cursor l)) (_source l) = c :: rest ->
      next_char l = Ok (c, set_cursor l (S (_cursor l)))) /\
  (length (_source l) <= S (_cursor l) -> next_char l = Fault OutOfBounds).
Proof.
  split.
  - intros c rest Hs. unfold next_char.
    destruct (skipn_cons_valid (set_cursor l (S (_cursor l))) c rest Hs)
      as (_ & _ & ->). reflexivity.
  - intros H. unfold next_char. now rewrite deref_at_end.
Qed.

(** X6.  From a cursor beyond the end of the buffer, where [skip] can
    leave it, [next_token] does not return: its first test reads outside
    the buffer. *)
Theorem next_token_beyond_end_reads_out_of_bounds l :
  length (_source l) < _cursor l ->
  next_token stod l = Fault OutOfBounds.
Proof.
  intros H. unfold next_token, bind at 1, skip_until.
  replace (length (_source l) - _cursor l) with 0 by lia. simpl.
  assert (eof l = false) as -> by (apply eof_false; lia).
  unfold at_char. now rewrite deref_at_end by lia.
Qed.

Lemma try_tokenize_run (name : list ascii) (ty : TokenType) l :
  valid l ->
  try_tokenize name ty l
  = if starts_with name (skipn (_cursor l) (_source l))
    then Ok (Some {| type := ty;
                     view := {| start := _cursor l; size := length name |} |},
             set_cursor l (_cursor l + length name))
    else Ok (None, l).
Proof.
  intros V. unfold try_tokenize, bind at 1, query.
  rewrite (match_sv_valid _ _ V).
  destruct (starts_with name _) eqn:Hm; [|reflexivity].
  unfold bind, gets, skip, ret. destruct (eof l) eqn:E; [|reflexivity].
  cbn [negb]. do 2 f_equal. apply Lexer_ext; simpl; auto.
  apply starts_with_length in Hm. rewrite length_skipn in Hm.
  apply eof_true in E. lia.
Qed.

(** X7.  With the cursor inside the buffer or at its end, [try_tokenize]
    reads no byte outside the buffer; when the bytes at the cursor are
    [name] it returns a token of the given kind over them and moves the
    cursor past them, and otherwise it returns nothing and changes nothing. *)
Theorem try_tokenize_matches_or_stays (name : list ascii) (ty : TokenType) l :
  valid l ->
  try_tokenize name ty l
  = if starts_with name (skipn (_cursor l) (_source l))
    then Ok (Some {| type := ty;
                     view := {| start := _cursor l; size := length name |} |},
             set_cursor l (_cursor l + length name))
    else Ok (None, l).
Proof. apply try_tokenize_run. Qed.

(** ** What next_token can do *)

Lemma deref_skipn l c :
  deref l = Ok c -> exists rest, skipn (_cursor l) (_source l) = c :: rest.
Proof.
  unfold deref. destruct (nth_error _ _) as [x|] eqn:N; [|discriminate].
  intros H; injection H as ->.
  apply nth_error_split in N as (l1 & l2 & Hsrc & Hlen).
  exists l2. rewrite Hsrc, <- Hlen, skipn_app, skipn_all, Nat.sub_diag.
  reflexivity.
Qed.

(** Skipping from a byte that does not stop the loop crosses that byte. *)
Lemma skip_until_progress p l c u l' :
  deref l = Ok c -> p c = false ->
  skip_until (at_char p) l = Ok (u, l') ->
  _cursor l < _cursor l'.
Proof.
  intros D Hp H. pose proof (deref_Ok _ _ D) as Hlt.
  unfold skip_until in H.
  destruct (length (_source l) - _cursor l) as [|fuel] eqn:F; [lia|].
  simpl in H. assert (eof l = false) as E by (apply eof_false; lia).
  rewrite E in H. unfold at_char at 1 in H. rewrite D, Hp in H.
  apply skip_until_loop_inv in H as ((_ & _ & C) & _). simpl in C. lia.
Qed.

Lemma returns_or_out_of_range_bind {A B} (m : M A) (f : A -> M B) l :
  returns_or_out_of_range (m l) ->
  (forall a l1, m l = Ok (a, l1) -> returns_or_out_of_range (f a l1)) ->
  returns_or_out_of_range (bind m f l).
Proof. unfold bind. destruct (m l) as [[a l1]|e]; auto. Qed.

Lemma returns_or_out_of_range_Ok {A} (r : result A) :
  (exists a, r = Ok a) -> returns_or_out_of_range r.
Proof. intros [a ->]. exact I. Qed.

(** [std::stoll] on a text that starts with a digit finds a number. *)
Lemma stoll_digit_first c s :
  isdigit c = true -> returns_or_out_of_range (stoll (c :: s)).
Proof.
  intros Hc.
  destruct (isdigit_class c Hc) as (Hsp & _ & _ & _ & Hminus & Hplus & _).
  unfold stoll. cbn [drop_while]. rewrite Hsp.
  destruct (Ascii.eqb_spec c "-"); [contradiction|].
  destruct (Ascii.eqb_spec c "+"); [contradiction|].
  cbn [take_while]. rewrite Hc.
  destruct (_ && _)%bool; exact I.
Qed.

Lemma next_token_numeric_returns_or_out_of_range l c :
  deref l = Ok c -> isdigit c = true ->
  returns_or_out_of_range (next_token_numeric stod (_cursor l) l).
Proof.
  intros D Hc.
  assert (valid l) as V by (apply deref_Ok in D; unfold valid; lia).
  unfold next_token_numeric.
  apply returns_or_out_of_range_bind.
  { apply returns_or_out_of_range_Ok.
    destruct (skip_until_at_char_total (fun c => negb (isdigit c)) l V); eauto. }
  intros u l1 H1.
  pose proof (skip_until_progress _ _ _ _ _ D (proj2 (negb_false_iff _) Hc) H1) as P.
  apply skip_until_at_char_inv in H1 as (_ & V1 & S1 & _ & _).
  apply returns_or_out_of_range_bind.
  { unfold query. now rewrite (match_sv_valid _ _ V1). }
  intros point l2 [-> Hm]%query_inv. destruct point.
  - apply returns_or_out_of_range_bind;
      [unfold skip; now destruct (negb (eof l1))|].
    intros u1 l2 Hk.
    eapply skip_valid in Hk; [|exact V1|now apply match_sv_true in Hm].
    apply returns_or_out_of_range_bind.
    { apply returns_or_out_of_range_Ok.
      destruct (skip_until_at_char_total (fun c => negb (isdigit c)) l2 Hk); eauto. }
    intros u2 l3 _.
    apply returns_or_out_of_range_bind; [exact I|]. intros text l4 _.
    destruct (stod text); exact I.
  - apply returns_or_out_of_range_bind; [exact I|].
    intros text l4 [-> ->]%gets_inv.
    assert (exists s, view_text (_source l1) (make_view (_cursor l) (_cursor l1))
                      = c :: s) as [s Htext].
    { apply deref_skipn in D as [rest Hs].
      unfold view_text, make_view. simpl. rewrite S1, Hs.
      destruct (_cursor l1 - _cursor l) as [|k] eqn:K; [lia|].
      simpl. eauto. }
    rewrite Htext. pose proof (stoll_digit_first c s Hc) as Hst.
    destruct (stoll (c :: s)) as [z|e]; [exact I|exact Hst].
Qed.

Lemma next_token_returns_or_out_of_range l :
  valid l -> returns_or_out_of_range (next_token stod l).
Proof.
  intros V. unfold next_token.
  apply returns_or_out_of_range_bind.
  { apply returns_or_out_of_range_Ok.
    destruct (skip_until_at_char_total (fun c => negb (isspace c)) l V); eauto. }
  intros u l1 (_ & V1 & _)%skip_until_at_char_inv.
  apply returns_or_out_of_range_bind.
  { unfold query. now rewrite (match_sv_valid _ _ V1). }
  intros lc l2 [-> _]%query_inv.
  apply returns_or_out_of_range_bind.
  { destruct lc.
    - apply returns_or_out_of_range_Ok.
      destruct (skip_until_at_char_total
                  (fun c => Ascii.eqb c "010"%char) l1 V1); eauto.
    - apply returns_or_out_of_range_bind.
      { unfold query. now rewrite (match_sv_valid _ _ V1). }
      intros bc l2 [-> _]%query_inv. destruct bc; [|exact I].
      unfold skip_beyond_sv. apply returns_or_out_of_range_bind.
      + apply returns_or_out_of_range_Ok.
        destruct (skip_until_sv_total (sv "*/") l1 V1); eauto.
      + intros u1 l2 _. unfold skip. now destruct (negb (eof l2)). }
  intros u2 l2 [V2 _]%skip_comment_inv; [|exact V1].
  apply returns_or_out_of_range_bind; [exact I|].
  intros at_end l3 [-> ->]%gets_inv.
  destruct (eof l2) eqn:E; [exact I|].
  apply returns_or_out_of_range_bind; [exact I|].
  intros token_begin l3 [-> ->]%gets_inv.
  apply returns_or_out_of_range_bind.
  { apply returns_or_out_of_range_Ok.
    destruct (try_basic_tokens_total basic_tokens l2 V2) as (r & l3 & ->). eauto. }
  intros r l3 Ht. apply try_basic_tokens_inv in Ht; [|exact V2].
  destruct r as [tk|]; [exact I|]. subst l3.
  assert (exists c, deref l2 = Ok c) as [c D].
  { unfold deref. apply eof_false in E. unfold valid in V2.
    destruct (nth_error (_source l2) (_cursor l2)) eqn:N; eauto.
    apply nth_error_None in N. lia. }
  apply returns_or_out_of_range_bind; [unfold query; now rewrite D|].
  intros first l3 [-> _]%query_inv.
  destruct (is_first_identifier_char first).
  { apply returns_or_out_of_range_Ok.
    destruct (next_token_identifier_total (_cursor l2) l2 V2) as (t & l3 & ->).
    eauto. }
  apply returns_or_out_of_range_bind; [unfold query; now rewrite D|].
  intros c' l3 [-> Hd]%query_inv.
  destruct (isdigit c') eqn:Hc; [|exact I].
  now apply (next_token_numeric_returns_or_out_of_range l2 c').
Qed.

(** X8.  From a cursor inside the buffer or at its end, a call of
    [next_token] either returns a token or lets the [std::out_of_range] of
    a numeric conversion escape: it reads no byte outside the buffer, its
    loops end, and [std::stoll] is never given a text without digits. *)
Theorem next_token_returns_or_throws_out_of_range l :
  valid l ->
  (exists t l', next_token stod l = Ok (t, l')) \/
  next_token stod l = Fault OutOfRange.
Proof.
  intros V. pose proof (next_token_returns_or_out_of_range l V) as H.
  destruct (next_token stod l) as [[t l']|[]]; simpl in H; try contradiction;
    eauto.
Qed.

(** ** The views of the tokens *)

Lemma try_basic_tokens_span table : forall l t l',
  valid l ->
  Forall (fun entry => length (fst entry) = 1) table ->
  try_basic_tokens table l = Ok (Some t, l') ->
  view t = {| start := _cursor l; size := 1 |} /\ _cursor l' = S (_cursor l).
Proof.
  induction table as [|[name ty] table IH]; intros l t l' V Hone H; simpl in H.
  - discriminate.
  - apply Forall_cons_iff in Hone as [Hlen Hone]. simpl in Hlen.
    unfold bind at 1 in H. rewrite (try_tokenize_run _ _ _ V) in H.
    destruct (starts_with name _).
    + unfold ret in H. injection H as <- <-. simpl. rewrite Hlen.
      split; [reflexivity|lia].
    + now apply IH.
Qed.

Lemma next_token_identifier_span l c t l' :
  deref l = Ok c -> is_first_identifier_char c = true ->
  next_token_identifier (_cursor l) l = Ok (t, l') ->
  view t = make_view (_cursor l) (_cursor l') /\ _cursor l < _cursor l'.
Proof.
  intros D Hc H. unfold next_token_identifier in H.
  apply bind_inv in H as (u & l1 & Hs & H).
  assert (_cursor l < _cursor l1) as P.
  { eapply skip_until_progress; [exact D| |exact Hs].
    unfold is_identifier_char. now rewrite Hc. }
  apply bind_inv in H as (c1 & l2 & Hg & H). apply gets_inv in Hg as [-> ->].
  apply bind_inv in H as (text & l2 & Hg & H). apply gets_inv in Hg as [-> ->].
  destruct (sv_eqb _ (sv "return")); [|destruct (sv_eqb _ (sv "break"));
    [|destruct (sv_eqb _ (sv "continue"))]];
    apply ret_inv in H as [-> ->]; simpl; auto.
Qed.

Lemma next_token_numeric_span l c t l' :
  deref l = Ok c -> isdigit c = true ->
  next_token_numeric stod (_cursor l) l = Ok (t, l') ->
  view t = make_view (_cursor l) (_cursor l') /\ _cursor l < _cursor l'.
Proof.
  intros D Hc H. unfold next_token_numeric in H.
  apply bind_inv in H as (u & l1 & Hs & H).
  pose proof (skip_until_progress _ _ _ _ _ D (proj2 (negb_false_iff _) Hc) Hs) as P.
  apply bind_inv in H as (point & l2 & Hq & H). apply query_inv in Hq as [-> _].
  destruct point.
  - apply bind_inv in H as (u1 & l2 & Hk & H).
    apply skip_moved in Hk as (_ & _ & C2).
    apply bind_inv in H as (u2 & l3 & Hs2 & H).
    apply skip_until_inv in Hs2 as ((_ & _ & C3) & _).
    apply bind_inv in H as (text & l4 & Hg & H). apply gets_inv in Hg as [-> ->].
    destruct (stod _) as [d|]; [|discriminate].
    apply bind_inv in H as (u' & l4 & Hv & H).
    unfold set_value_m in Hv. injection Hv as _ <-.
    apply bind_inv in H as (c1 & l4 & Hg & H). apply gets_inv in Hg as [-> ->].
    apply ret_inv in H as [-> ->]. simpl. split; [reflexivity|lia].
  - apply bind_inv in H as (text & l4 & Hg & H). apply gets_inv in Hg as [-> ->].
    destruct (stoll _) as [z|]; [|discriminate].
    apply bind_inv in H as (u' & l4 & Hv & H).
    unfold set_value_m in Hv. injection Hv as _ <-.
    apply bind_inv in H as (c1 & l4 & Hg & H). apply gets_inv in Hg as [-> ->].
    apply ret_inv in H as [-> ->]. simpl. split; [reflexivity|lia].
Qed.

(** The view of a token other than [EndOfFile] is not empty, starts at or
    after the cursor of the call and ends at the cursor the call leaves. *)
Lemma next_token_span l t l' :
  next_token stod l = Ok (t, l') ->
  type t <> EndOfFile ->
  _cursor l <= start (view t) /\
  start (view t) + size (view t) = _cursor l' /\
  1 <= size (view t).
Proof.
  intros H Hne. unfold next_token in H.
  apply bind_inv in H as (u & l1 & Hs & H).
  apply skip_until_at_char_inv in Hs as (V & V1 & _ & _ & C1).
  apply bind_inv in H as (lc & l2 & Hq & H). apply query_inv in Hq as [-> _].
  apply bind_inv in H as (u2 & l2 & Hc & H).
  apply skip_comment_inv in Hc as (V2 & _ & _ & C2); [|exact V1].
  apply bind_inv in H as (at_end & l3 & Hc & H). apply gets_inv in Hc as [-> ->].
  destruct (eof l2) eqn:E.
  - apply bind_inv in H as (c & l3 & Hc & H). apply gets_inv in Hc as [-> ->].
    apply ret_inv in H as [-> ->]. simpl in Hne. contradiction.
  - apply bind_inv in H as (b & l3 & Hc & H). apply gets_inv in Hc as [-> ->].
    apply bind_inv in H as (r & l3 & Ht & H).
    destruct r as [tk|].
    + apply try_basic_tokens_span in Ht as [Hv C3];
        [|exact V2|unfold basic_tokens; repeat constructor].
      apply ret_inv in H as [-> ->]. rewrite Hv. simpl. lia.
    + apply try_basic_tokens_inv in Ht; [|exact V2]. subst l3.
      apply bind_inv in H as (first & l3 & Hq & H). apply query_inv in Hq as [-> Hd].
      destruct (is_first_identifier_char first) eqn:Hf.
      * apply (next_token_identifier_span _ _ _ _ Hd Hf) in H as [Hv P].
        rewrite Hv. simpl. lia.
      * apply bind_inv in H as (c & l3 & Hq & H). apply query_inv in Hq as [-> Hd'].
        destruct (isdigit c) eqn:Hc.
        -- apply (next_token_numeric_span _ _ _ _ Hd' Hc) in H as [Hv P].
           rewrite Hv. simpl. lia.
        -- apply bind_inv in H as (cur & l3 & Hc' & H). apply gets_inv in Hc' as [-> ->].
           apply bind_inv in H as (u' & l3 & Hc' & H). injection Hc' as _ <-.
           apply ret_inv in H as [-> ->]. simpl. lia.
Qed.

(** X9.  A call that returns a token other than [EndOfFile] makes
    progress: the view of the token is not empty, starts at or after the
    cursor the call found, ends exactly at the cursor the call leaves, and
    lies inside the buffer. *)
Theorem token_view_ends_at_cursor l t l' :
  next_token stod l = Ok (t, l') ->
  type t <> EndOfFile ->
  _cursor l <= start (view t) /\
  1 <= size (view t) /\
  start (view t) + size (view t) = _cursor l' /\
  _cursor l' <= length (_source l') /\
  _cursor l < _cursor l'.
Proof.
  intros H Hne. pose proof (next_token_span _ _ _ H Hne) as (A & B & C).
  apply next_token_inv in H as (_ & V' & _). unfold valid in V'. lia.
Qed.

(** X10.  The views of two tokens returned by successive calls do not
    overlap: the second starts at or after the end of the first. *)
Theorem successive_views_do_not_overlap l t1 l1 t2 l2 :
  next_token stod l = Ok (t1, l1) ->
  next_token stod l1 = Ok (t2, l2) ->
  type t1 <> EndOfFile ->
  start (view t1) + size (view t1) <= start (view t2).
Proof.
  intros H1 H2 Hne. pose proof (next_token_span _ _ _ H1 Hne) as (_ & B & _).
  destruct (type t2) eqn:T2;
    try (pose proof (next_token_span _ _ _ H2) as (A & _); [congruence|lia]).
  apply next_token_inv in H2 as (_ & _ & _ & C & _ & Heof).
  destruct (Heof T2) as [_ ->]. simpl. lia.
Qed.

Lemma next_tokens_reach_EndOfFile (n : nat) : forall l ts l',
  valid l ->
  length (_source l) - _cursor l < n ->
  next_tokens stod n l = Ok (ts, l') ->
  exists t, In t ts /\ type t = EndOfFile.
Proof.
  induction n as [|n IH]; intros l ts l' V Hn H; [lia|].
  simpl in H. apply bind_inv in H as (t & l1 & Ht & H).
  apply bind_inv in H as (ts' & l2 & Hts & H). apply ret_inv in H as [-> ->].
  assert (type t = EndOfFile \/ type t <> EndOfFile) as [T|T]
    by (destruct (type t); auto; right; discriminate).
  - exists t. split; [now left|exact T].
  - pose proof (next_token_span _ _ _ Ht T) as (A & B & C).
    pose proof Ht as (_ & V1 & S1 & _)%next_token_inv.
    apply IH in Hts as (t' & Hin & Ht');
      [|exact V1|unfold valid in *; rewrite S1 in *; lia].
    exists t'. split; [now right|exact Ht'].
Qed.

(** X11.  Lexing ends: among the tokens that [length source + 1]
    successive calls on a new lexer return, one is [EndOfFile]. *)
Theorem EndOfFile_within_length_calls (source : list ascii) ts l' :
  next_tokens stod (S (length source)) (Lexer_new source) = Ok (ts, l') ->
  exists t, In t ts /\ type t = EndOfFile.
Proof.
  apply next_tokens_reach_EndOfFile; simpl; [unfold valid; simpl|]; lia.
Qed.

(** X12.  White space at the cursor does not change the token: a call
    from before a run of white space does what a call from after it does. *)
Theorem leading_whitespace_is_skipped l (ws rest : list ascii) :
  skipn (_cursor l) (_source l) = ws ++ rest ->
  forallb isspace ws = true ->
  ends_or_starts (fun c => negb (isspace c)) rest ->
  next_token stod l = next_token stod (set_cursor l (_cursor l + length ws)).
Proof.
  intros Hs Hws Hrest.
  assert (_cursor l + length ws + length rest = length (_source l)
          \/ length (_source l) < _cursor l) as [Hlen|Hlen].
  { apply (f_equal (@length ascii)) in Hs.
    rewrite length_skipn, length_app in Hs. lia. }
  2:{ rewrite skipn_all2 in Hs by lia.
      destruct ws; [|discriminate]. simpl. rewrite Nat.add_0_r.
      now rewrite set_cursor_same. }
  assert (forall k : unit -> M Token,
             bind (skip_until (at_char (fun c => negb (isspace c)))) k l
             = bind (skip_until (at_char (fun c => negb (isspace c)))) k
                 (set_cursor l (_cursor l + length ws))) as Hk.
  { intros k. unfold bind.
    rewrite (skip_until_run _ l ws rest); auto.
    - rewrite (skip_until_run _ (set_cursor l (_cursor l + length ws)) [] rest).
      + simpl. rewrite Nat.add_0_r. reflexivity.
      + unfold valid; simpl; lia.
      + simpl. rewrite Nat.add_comm, <- skipn_skipn, Hs, skipn_app, skipn_all, Nat.sub_diag.
        reflexivity.
      + reflexivity.
      + exact Hrest.
    - unfold valid; lia.
    - rewrite forallb_forall in *. intros x Hx. now rewrite (Hws x Hx). }
  unfold next_token. apply Hk.
Qed.

(** ** The token at the cursor *)

Lemma skipn_after_run (src run rest : list ascii) (c : nat) :
  skipn c src = run ++ rest -> skipn (c + length run) src = rest.
Proof.
  intros Hs. rewrite Nat.add_comm, <- skipn_skipn, Hs, skipn_app, skipn_all,
    Nat.sub_diag. reflexivity.
Qed.

Lemma view_text_run (src run rest : list ascii) (c : nat) :
  skipn c src = run ++ rest ->
  view_text src (make_view c (c + length run)) = run.
Proof.
  intros Hs. unfold view_text, make_view. simpl.
  rewrite Hs, Nat.add_comm, Nat.add_sub, firstn_app, Nat.sub_diag, firstn_all.
  simpl. now rewrite app_nil_r.
Qed.

Lemma make_view_run (c n : nat) :
  make_view c (c + n) = {| start := c; size := n |}.
Proof. unfold make_view. now rewrite Nat.add_comm, Nat.add_sub. Qed.

Lemma run_valid l (run rest : list ascii) :
  skipn (_cursor l) (_source l) = run ++ rest -> run <> [] ->
  _cursor l + length run + length rest = length (_source l).
Proof.
  intros Hs Hne. pose proof (f_equal (@length ascii) Hs) as H.
  rewrite length_skipn, length_app in H.
  destruct run; [contradiction|]. simpl in *. lia.
Qed.

(** The [for] loop over the table takes the first entry that matches. *)
Lemma try_basic_tokens_find table : forall l,
  valid l ->
  try_basic_tokens table l
  = match find (fun entry => starts_with (fst entry)
                               (skipn (_cursor l) (_source l))) table with
    | Some (name, ty) =>
        Ok (Some {| type := ty;
                    view := {| start := _cursor l; size := length name |} |},
            set_cursor l (_cursor l + length name))
    | None => Ok (None, l)
    end.
Proof.
  induction table as [|[name ty] table IH]; intros l V; simpl.
  - reflexivity.
  - unfold bind at 1. rewrite (try_tokenize_run _ _ _ V).
    destruct (starts_with name _); [reflexivity|]. now apply IH.
Qed.

(** The first lines of [next_token] when the cursor is on a byte that is
    neither white space nor the start of a comment. *)
Ltac next_token_prefix l c rest Hs V E Hsp Hline Hblock :=
  unfold next_token; unfold bind at 1;
  rewrite (skip_until_stays _ l c rest Hs) by (now rewrite Hsp);
  unfold bind at 1, query at 1; rewrite (match_sv_valid _ _ V), Hs, Hline;
  unfold bind at 1, bind at 1, query at 1;
  rewrite (match_sv_valid _ _ V), Hs, Hblock; unfold ret at 1;
  unfold bind at 1, gets at 1; rewrite E;
  unfold bind at 1, gets at 1; unfold bind at 1.

(** X13.  With the cursor on the byte of a fixed token other than the
    newline, whatever follows it, [next_token] returns the kind the table
    pairs with that byte, with a view of that one byte, moves the cursor
    one byte and leaves [value] as it was. *)
Theorem fixed_token_at_cursor l (c : ascii) (rest : list ascii) (ty : TokenType) :
  skipn (_cursor l) (_source l) = c :: rest ->
  In ([c], ty) basic_tokens ->
  c <> "010"%char ->
  next_token stod l
  = Ok ({| type := ty; view := {| start := _cursor l; size := 1 |} |},
        set_cursor l (_cursor l + 1)).
Proof.
  intros Hs Hin Hnl.
  destruct (skipn_cons_valid _ _ _ Hs) as (V & E & D).
  unfold basic_tokens in Hin. simpl in Hin.
  assert (forall x : ascii,
             isspace x = false ->
             starts_with (sv "//") (x :: rest) = false ->
             starts_with (sv "/*") (x :: rest) = false ->
             find (fun entry => starts_with (fst entry) (x :: rest)) basic_tokens
             = Some ([x], ty) ->
             c = x ->
             next_token stod l
             = Ok ({| type := ty; view := {| start := _cursor l; size := 1 |} |},
                   set_cursor l (_cursor l + 1))) as Hx.
  { intros x Hsp Hline Hblock Hfind <-.
    next_token_prefix l c rest Hs V E Hsp Hline Hblock.
    rewrite (try_basic_tokens_find _ _ V), Hs, Hfind. reflexivity. }
  repeat (destruct Hin as [Hin|Hin];
          [injection Hin as Hc <-; symmetry in Hc;
           first [ contradiction | refine (Hx _ _ _ _ _ Hc); reflexivity ]|]).
  contradiction.
Qed.

(** X14.  With the cursor on a byte that is neither white space, nor the
    start of a comment, nor a fixed token, nor a letter, nor a digit,
    [next_token] returns [Unexpected] with a view of that byte and moves the
    cursor exactly one byte; [value] is left as it was. *)
Theorem unrecognized_byte_is_Unexpected l (c : ascii) (rest : list ascii) :
  skipn (_cursor l) (_source l) = c :: rest ->
  isspace c = false ->
  starts_with (sv "//") (c :: rest) = false ->
  starts_with (sv "/*") (c :: rest) = false ->
  is_basic_char c = false ->
  is_first_identifier_char c = false ->
  isdigit c = false ->
  next_token stod l
  = Ok ({| type := Unexpected; view := {| start := _cursor l; size := 1 |} |},
        set_cursor l (S (_cursor l))).
Proof.
  intros Hs Hsp Hline Hblock Hbasic Halpha Hdigit.
  destruct (skipn_cons_valid _ _ _ Hs) as (V & E & D).
  next_token_prefix l c rest Hs V E Hsp Hline Hblock.
  rewrite (try_basic_tokens_none l c rest Hs Hbasic).
  unfold bind at 1, query at 1. rewrite D, Halpha.
  unfold bind at 1, query at 1. rewrite D, Hdigit. reflexivity.
Qed.

(** The identifier branch on a maximal run of letters and digits. *)
Lemma next_token_identifier_run l (text rest : list ascii) :
  skipn (_cursor l) (_source l) = text ++ rest ->
  text <> [] ->
  forallb is_identifier_char text = true ->
  ends_or_starts (fun c => negb (is_identifier_char c)) rest ->
  next_token_identifier (_cursor l) l
  = let view := {| start := _cursor l; size := length text |} in
    let l1 := set_cursor l (_cursor l + length text) in
    if sv_eqb text (sv "return") then Ok ({| type := Return; view := view |}, l1)
    else if sv_eqb text (sv "break") then Ok ({| type := Break; view := view |}, l1)
    else if sv_eqb text (sv "continue")
         then Ok ({| type := Continue; view := view |}, l1)
         else Ok ({| type := Identifier; view := view |},
                  set_value l1 (VString text)).
Proof.
  intros Hs Hne Hall Hrest.
  pose proof (run_valid _ _ _ Hs Hne) as Hlen.
  unfold next_token_identifier. unfold bind at 1.
  rewrite (skip_until_run _ l text rest); auto.
  - unfold bind at 1, gets at 1. unfold bind at 1, gets at 1.
    cbn [_cursor _source set_cursor].
    rewrite (view_text_run _ _ _ _ Hs), make_view_run. cbv zeta.
    destruct (sv_eqb text (sv "return")); [reflexivity|].
    destruct (sv_eqb text (sv "break")); [reflexivity|].
    destruct (sv_eqb text (sv "continue")); reflexivity.
  - unfold valid; lia.
  - rewrite forallb_forall in *. intros x Hx. now rewrite (Hall x Hx).
Qed.

(** X15.  Longest match for identifiers: with the cursor on a letter, the
    token is the whole run of letters and digits up to the first other byte
    or the end; when that run is not a reserved word the kind is
    [Identifier], the view is the run and [value] is its text. *)
Theorem identifier_is_maximal_run l (c : ascii) (s rest : list ascii) :
  skipn (_cursor l) (_source l) = (c :: s) ++ rest ->
  is_first_identifier_char c = true ->
  forallb is_identifier_char s = true ->
  ends_or_starts (fun x => negb (is_identifier_char x)) rest ->
  (forall ty, ~ In (c :: s, ty) reserved_words) ->
  next_token stod l
  = Ok ({| type := Identifier;
           view := {| start := _cursor l; size := length (c :: s) |} |},
        set_value (set_cursor l (_cursor l + length (c :: s)))
          (VString (c :: s))).
Proof.
  intros Hs Hc Hall Hrest Hres.
  destruct (isalpha_class c Hc) as (Hsp & Hslash & Hbasic & _).
  rewrite (next_token_dispatch stod l c (s ++ rest)); auto. rewrite Hc.
  rewrite (next_token_identifier_run l (c :: s) rest); auto.
  - cbv zeta.
    destruct (sv_eqb (c :: s) (sv "return")) eqn:E1;
      [apply sv_eqb_eq in E1; exfalso; apply (Hres Return); rewrite E1;
       simpl; auto|].
    destruct (sv_eqb (c :: s) (sv "break")) eqn:E2;
      [apply sv_eqb_eq in E2; exfalso; apply (Hres Break); rewrite E2;
       simpl; auto|].
    destruct (sv_eqb (c :: s) (sv "continue")) eqn:E3;
      [apply sv_eqb_eq in E3; exfalso; apply (Hres Continue); rewrite E3;
       simpl; auto|].
    reflexivity.
  - discriminate.
  - cbn [forallb]. unfold is_identifier_char at 1. now rewrite Hc, Hall.
Qed.

(** X16.  With the cursor on a reserved word that is followed by the end of
    the buffer or by a byte that is neither a letter nor a digit,
    [next_token] returns the kind of the reserved word with a view of the
    word, and leaves [value] as it was. *)
Theorem reserved_word_at_cursor l (word rest : list ascii) (ty : TokenType) :
  In (word, ty) reserved_words ->
  skipn (_cursor l) (_source l) = word ++ rest ->
  ends_or_starts (fun x => negb (is_identifier_char x)) rest ->
  next_token stod l
  = Ok ({| type := ty; view := {| start := _cursor l; size := length word |} |},
        set_cursor l (_cursor l + length word)).
Proof.
  intros Hin Hs Hrest. unfold reserved_words in Hin. simpl in Hin.
  destruct Hin as [Hin|[Hin|[Hin|[]]]]; injection Hin as <- <-.
  - rewrite (next_token_dispatch stod l "r"%char (sv "eturn" ++ rest));
      auto; try discriminate.
    change (is_first_identifier_char "r") with true. cbv iota.
    now rewrite (next_token_identifier_run l (sv "return") rest).
  - rewrite (next_token_dispatch stod l "b"%char (sv "reak" ++ rest));
      auto; try discriminate.
    change (is_first_identifier_char "b") with true. cbv iota.
    now rewrite (next_token_identifier_run l (sv "break") rest).
  - rewrite (next_token_dispatch stod l "c"%char (sv "ontinue" ++ rest));
      auto; try discriminate.
    change (is_first_identifier_char "c") with true. cbv iota.
    now rewrite (next_token_identifier_run l (sv "continue") rest).
Qed.

(** X17.  Longest match for integers: with the cursor on a digit, the
    token is the whole run of digits up to the first other byte or the end;
    when that byte is not a decimal point the kind is [LiteralInt], the view
    is the run and [value] is the number the digits denote, unless that
    number exceeds [LLONG_MAX], in which case [std::out_of_range] escapes
    the call. *)
Theorem integer_is_maximal_run l (digits rest : list ascii) :
  skipn (_cursor l) (_source l) = digits ++ rest ->
  digits <> [] ->
  forallb isdigit digits = true ->
  ends_or_starts (fun x => negb (isdigit x) && negb (Ascii.eqb x ".")) rest ->
  next_token stod l
  = if (decimal_value digits <=? LLONG_MAX)%Z
    then Ok ({| type := LiteralInt;
                view := {| start := _cursor l; size := length digits |} |},
             set_value (set_cursor l (_cursor l + length digits))
               (VInt (decimal_value digits)))
    else Fault OutOfRange.
Proof.
  intros Hs Hne Hall Hrest.
  pose proof (run_valid _ _ _ Hs Hne) as Hlen.
  destruct digits as [|c ds]; [contradiction|]. cbn [length] in Hlen.
  pose proof Hall as [Hc _]%andb_true_iff.
  destruct (isdigit_class c Hc) as (Hsp & Hslash & Hbasic & Halpha & _).
  rewrite (next_token_dispatch stod l c (ds ++ rest)); auto.
  unfold is_first_identifier_char. rewrite Halpha, Hc.
  unfold next_token_numeric. unfold bind at 1.
  rewrite (skip_until_run _ l (c :: ds) rest);
    [ | unfold valid; lia | exact Hs
      | rewrite forallb_forall in *; intros x Hx; now rewrite (Hall x Hx)
      | destruct rest; [exact I|]; simpl in Hrest;
        now apply andb_true_iff in Hrest as [-> _] ].
  unfold bind at 1, query at 1.
  rewrite match_sv_valid by (unfold valid; simpl; lia).
  cbn [_cursor _source set_cursor]. rewrite (skipn_after_run _ _ _ _ Hs).
  assert (starts_with (sv ".") rest = false) as ->.
  { destruct rest as [|x rest]; [reflexivity|]. simpl in Hrest.
    apply andb_true_iff in Hrest as [_ Hx]. apply negb_true_iff in Hx.
    change (sv ".") with ["."%char]. rewrite starts_with_cons.
    destruct (Ascii.eqb_spec "."%char x) as [<-|]; [|reflexivity].
    discriminate Hx. }
  unfold bind at 1, string_between, gets at 1. cbn [_cursor _source set_cursor].
  rewrite (view_text_run _ _ _ _ Hs), (stoll_digits _ _ Hall).
  destruct (Z.leb_spec (decimal_value (c :: ds)) LLONG_MAX); [|reflexivity].
  unfold bind, set_value_m, gets, ret. cbn [_cursor _source set_value set_cursor].
  now rewrite make_view_run.
Qed.

(** X18.  With the cursor on a run of digits followed by a decimal point,
    the token is the digits, the point and the digits that follow the
    point, none included; the kind is [LiteralFloat], the view is that text
    and [value] is what [std::stod] makes of it, and when [std::stod]
    throws, the exception escapes the call. *)
Theorem float_is_digits_point_digits l (whole fraction rest : list ascii) :
  skipn (_cursor l) (_source l) = whole ++ "."%char :: fraction ++ rest ->
  whole <> [] ->
  forallb isdigit whole = true ->
  forallb isdigit fraction = true ->
  ends_or_starts (fun x => negb (isdigit x)) rest ->
  next_token stod l
  = match stod (whole ++ "."%char :: fraction) with
    | Some d =>
        Ok ({| type := LiteralFloat;
               view := {| start := _cursor l;
                          size := length (whole ++ "."%char :: fraction) |} |},
            set_value
              (set_cursor l (_cursor l + length (whole ++ "."%char :: fraction)))
              (VDouble d))
    | None => Fault OutOfRange
    end.
Proof.
  intros Hs Hne Hw Hf Hrest.
  pose proof (run_valid _ _ _ Hs Hne) as Hlen. simpl in Hlen.
  rewrite length_app in Hlen.
  assert (skipn (_cursor l) (_source l)
          = (whole ++ "."%char :: fraction) ++ rest) as Hs2
    by (rewrite Hs, <- app_assoc; reflexivity).
  assert (skipn (_cursor l + length whole + 1) (_source l) = fraction ++ rest)
    as Hs3.
  { replace (_cursor l + length whole + 1)
      with (_cursor l + length (whole ++ ["."%char]))
      by (rewrite length_app; simpl; lia).
    apply skipn_after_run. rewrite Hs, <- app_assoc. reflexivity. }
  destruct whole as [|c ds]; [contradiction|]. cbn [length] in Hlen.
  pose proof Hw as [Hc _]%andb_true_iff.
  destruct (isdigit_class c Hc) as (Hsp & Hslash & Hbasic & Halpha & _).
  rewrite (next_token_dispatch stod l c (ds ++ "."%char :: fraction ++ rest));
    auto.
  unfold is_first_identifier_char. rewrite Halpha, Hc.
  unfold next_token_numeric. unfold bind at 1.
  rewrite (skip_until_run _ l (c :: ds) ("."%char :: fraction ++ rest));
    [ | unfold valid; lia | exact Hs
      | rewrite forallb_forall in *; intros x Hx; now rewrite (Hw x Hx)
      | reflexivity ].
  unfold bind at 1, query at 1.
  rewrite match_sv_valid by (unfold valid; simpl in *; lia).
  cbn [_cursor _source set_cursor]. rewrite (skipn_after_run _ _ _ _ Hs).
  change (starts_with (sv ".") ("."%char :: fraction ++ rest)) with true.
  cbv iota.
  unfold bind at 1, skip at 1, eof at 1, skip_default.
  cbn [_cursor _source set_cursor].
  destruct (Nat.eqb_spec (_cursor l + length (c :: ds)) (length (_source l)));
    [simpl in *; lia|]. cbn [negb].
  unfold bind at 1.
  rewrite (skip_until_run _ _ fraction rest);
    [ | unfold valid; simpl in *; lia | exact Hs3
      | rewrite forallb_forall in *; intros x Hx; now rewrite (Hf x Hx)
      | exact Hrest ].
  unfold bind at 1, string_between, gets at 1. cbn [_cursor _source set_cursor].
  replace (_cursor l + length (c :: ds) + 1 + length fraction)
    with (_cursor l + length ((c :: ds) ++ "."%char :: fraction))
    by (rewrite length_app; simpl; lia).
  rewrite (view_text_run _ _ _ _ Hs2).
  destruct (stod _) as [d|]; [|reflexivity].
  unfold bind, set_value_m, gets, ret. cbn [_cursor _source set_value set_cursor].
  now rewrite make_view_run.
Qed.

(** X19.  A line comment, after white space, runs up to the next newline:
    the call returns that newline as [EndOfLine]; when no newline follows,
    the comment runs to the end of the buffer and the call returns
    [EndOfFile]. *)
Theorem line_comment_ends_at_newline l (ws body : list ascii) :
  forallb isspace ws = true ->
  forallb (fun c => negb (Ascii.eqb c "010")) body = true ->
  (forall rest,
      skipn (_cursor l) (_source l)
      = ws ++ sv "//" ++ body ++ "010"%char :: rest ->
      next_token stod l
      = Ok ({| type := EndOfLine;
               view := {| start := _cursor l + length ws + 2 + length body;
                          size := 1 |} |},
            set_cursor l (_cursor l + length ws + 2 + length body + 1))) /\
  (skipn (_cursor l) (_source l) = ws ++ sv "//" ++ body ->
   next_token stod l
   = Ok ({| type := EndOfFile;
            view := {| start := length (_source l); size := 1 |} |},
         set_cursor l (length (_source l)))).
Proof.
  intros Hws Hbody.
  assert (forall tail,
             skipn (_cursor l) (_source l) = ws ++ sv "//" ++ body ++ tail ->
             ends_or_starts (fun c => Ascii.eqb c "010") tail ->
             forall k : unit -> M Token,
               bind (skip_until (at_char (fun c => negb (isspace c))))
                 (fun _ =>
                    bind (query (match_sv (sv "//")))
                      (fun line_comment : bool =>
                         bind (if line_comment
                               then skip_until_char "010"%char
                               else bind (query (match_sv (sv "/*")))
                                      (fun block_comment : bool =>
                                         if block_comment
                                         then skip_beyond_sv (sv "*/")
                                         else ret tt))
                           k)) l
               = k tt (set_cursor l (_cursor l + length ws + 2 + length body)))
    as Hk.
  { intros tail Hs Htail k.
    assert (_cursor l + length ws + 2 + length body + length tail
            = length (_source l)) as Hlen.
    { pose proof (f_equal (@length ascii) Hs) as H.
      rewrite length_skipn, !length_app in H. simpl in H. lia. }
    unfold bind at 1.
    rewrite (skip_until_run _ l ws (sv "//" ++ body ++ tail));
      [ | unfold valid; lia | exact Hs
        | rewrite forallb_forall in *; intros x Hx; now rewrite (Hws x Hx)
        | reflexivity ].
    unfold bind at 1, query at 1.
    rewrite match_sv_valid by (unfold valid; simpl; lia).
    cbn [_cursor _source set_cursor]. rewrite (skipn_after_run _ _ _ _ Hs).
    change (starts_with (sv "//") (sv "//" ++ body ++ tail)) with true.
    cbv iota. unfold bind at 1, skip_until_char.
    rewrite (skip_until_run _ _ (sv "//" ++ body) tail);
      [ | unfold valid; simpl; lia
        | cbn [_cursor _source set_cursor];
          rewrite (skipn_after_run _ _ _ _ Hs), <- app_assoc; reflexivity
        | simpl; exact Hbody
        | exact Htail ].
    cbn [_cursor _source set_cursor].
    replace (length (sv "//" ++ body)) with (2 + length body)
      by (rewrite length_app; reflexivity).
    f_equal. apply Lexer_ext; simpl; auto. lia. }
  split.
  - intros rest Hs.
    assert (_cursor l + length ws + 2 + length body + S (length rest)
            = length (_source l)) as Hlen.
    { pose proof (f_equal (@length ascii) Hs) as H.
      rewrite length_skipn, !length_app in H. simpl in H. lia. }
    unfold next_token. rewrite (Hk ("010"%char :: rest) Hs (eq_refl true)).
    unfold bind at 1, gets at 1, eof at 1. cbn [_cursor _source set_cursor].
    destruct (Nat.eqb_spec (_cursor l + length ws + 2 + length body)
                (length (_source l))); [lia|].
    unfold bind at 1, gets at 1. unfold bind at 1.
    rewrite try_basic_tokens_find by (unfold valid; simpl; lia).
    cbn [_cursor _source set_cursor].
    replace (_cursor l + length ws + 2 + length body)
      with (_cursor l + length (ws ++ sv "//" ++ body))
      by (rewrite !length_app; simpl; lia).
    rewrite (skipn_after_run _ (ws ++ sv "//" ++ body) ("010"%char :: rest))
      by (rewrite Hs, <- !app_assoc; reflexivity).
    reflexivity.
  - intros Hs. rewrite <- (app_nil_r body) in Hs.
    assert (_cursor l + length ws + 2 + length body = length (_source l))
      as Hlen.
    { pose proof (f_equal (@length ascii) Hs) as H.
      rewrite length_skipn, !length_app in H. simpl in H. lia. }
    unfold next_token. rewrite (Hk [] Hs I).
    unfold bind at 1, gets at 1, eof at 1. cbn [_cursor _source set_cursor].
    rewrite Hlen, Nat.eqb_refl. reflexivity.
Qed.

(** X20.  On return from [skip_until(stop_condition)], whatever the
    condition, the buffer and [value] are what they were, the cursor has not
    moved backwards, a cursor that was inside the buffer or at its end still
    is, and the cursor is at the end of the buffer or on a position where
    the condition holds. *)
Theorem skip_until_postcondition stop l u l' :
  skip_until stop l = Ok (u, l') ->
  _source l' = _source l /\ value l' = value l /\ _cursor l <= _cursor l' /\
  (valid l -> valid l') /\
  (eof l' = true \/ stop l' = Ok true).
Proof.
  intros H. apply skip_until_inv in H as ((S & Val & C) & V & P). auto.
Qed.

(** ** Block comments without a closer *)



End MemberFunctions.

(** * Instances of the further properties *)

(** X1 on "a/*b" with the cursor on the slash. *)
Lemma match_sv_decides_prefix_witness :
  exists b,
    match_sv (sv "/*")
      {| _source := sv "a/*b"; _cursor := 1; value := @VNone (list ascii) |}
    = Ok b /\
    (b = true <-> exists rest, skipn 1 (sv "a/*b") = sv "/*" ++ rest).
Proof.
  apply (match_sv_decides_prefix (sv "/*")
           {| _source := sv "a/*b"; _cursor := 1; value := @VNone (list ascii) |}).
  unfold valid; simpl; lia.
Defined.

(** X2 on "ab*/c", skipping up to the "*/". *)
Lemma skip_until_stops_at_first_witness :
  skip_until (match_sv (sv "*/"))
    {| _source := sv "ab*/c"; _cursor := 0; value := @VNone (list ascii) |}
  = Ok (tt, {| _source := sv "ab*/c"; _cursor := 2; value := VNone |}).
Proof.
  apply (skip_until_stops_at_first (match_sv (sv "*/"))
           {| _source := sv "ab*/c"; _cursor := 0; value := @VNone (list ascii) |}
           2).
  - simpl; lia.
  - intros [|[|i]] Hi; [reflexivity|reflexivity|simpl in Hi; lia].
  - right. reflexivity.
Defined.

(** X3 on "/* a */ 42". *)
Lemma skip_beyond_sv_first_occurrence_witness :
  (forall pre rest,
      skipn 0 (sv "/* a */ 42") = pre ++ sv "*/" ++ rest ->
      (forall i, i < length pre ->
                 starts_with (sv "*/") (skipn i (pre ++ sv "*/" ++ rest)) = false) ->
      skip_beyond_sv (sv "*/")
        {| _source := sv "/* a */ 42"; _cursor := 0; value := @VNone (list ascii) |}
      = Ok (tt, {| _source := sv "/* a */ 42";
                   _cursor := 0 + length pre + length (sv "*/");
                   value := VNone |})) /\
  (contains (sv "*/") (skipn 0 (sv "/* a */ 42")) = false ->
   skip_beyond_sv (sv "*/")
     {| _source := sv "/* a */ 42"; _cursor := 0; value := @VNone (list ascii) |}
   = Ok (tt, {| _source := sv "/* a */ 42"; _cursor := 10; value := VNone |})).
Proof.
  apply (skip_beyond_sv_first_occurrence (sv "*/")
           {| _source := sv "/* a */ 42"; _cursor := 0;
              value := @VNone (list ascii) |}).
  unfold valid; simpl; lia.
Defined.

(** X4 on "ab" followed by a newline and "c", and up to the newline. *)
Lemma skip_beyond_char_first_occurrence_witness :
  (forall rest,
      skipn 0 (sv "ab" ++ "010"%char :: sv "c") = sv "ab" ++ "010"%char :: rest ->
      skip_beyond_char "010"
        {| _source := sv "ab" ++ "010"%char :: sv "c"; _cursor := 0;
           value := @VNone (list ascii) |}
      = Ok (tt, {| _source := sv "ab" ++ "010"%char :: sv "c"; _cursor := 3;
                   value := VNone |})) /\
  (skipn 0 (sv "ab" ++ "010"%char :: sv "c") = sv "ab" ->
   skip_beyond_char "010"
     {| _source := sv "ab" ++ "010"%char :: sv "c"; _cursor := 0;
        value := @VNone (list ascii) |}
   = Ok (tt, {| _source := sv "ab" ++ "010"%char :: sv "c"; _cursor := 4;
                value := VNone |})).
Proof.
  apply (skip_beyond_char_first_occurrence "010"
           {| _source := sv "ab" ++ "010"%char :: sv "c"; _cursor := 0;
              value := @VNone (list ascii) |} (sv "ab")).
  - unfold valid; simpl; lia.
  - reflexivity.
Defined.

(** X5 on "ab" with the cursor on the last byte. *)
Lemma next_char_reads_after_stepping_witness :
  next_char {| _source := sv "ab"; _cursor := 1; value := @VNone (list ascii) |}
  = Fault OutOfBounds.
Proof.
  apply (proj2 (next_char_reads_after_stepping
                  {| _source := sv "ab"; _cursor := 1;
                     value := @VNone (list ascii) |})).
  simpl; lia.
Defined.

(** X6 on "ab" with the cursor at 3. *)
Lemma next_token_beyond_end_reads_out_of_bounds_witness :
  next_token stod_symbolic {| _source := sv "ab"; _cursor := 3; value := VNone |}
  = Fault OutOfBounds.
Proof.
  apply (next_token_beyond_end_reads_out_of_bounds stod_symbolic).
  simpl; lia.
Defined.

(** X7 on "f(x" with the cursor on the parenthesis. *)
Lemma try_tokenize_matches_or_stays_witness :
  try_tokenize (sv "(") ParameterListBegin
    {| _source := sv "f(x"; _cursor := 1; value := @VNone (list ascii) |}
  = Ok (Some {| type := ParameterListBegin;
                view := {| start := 1; size := 1 |} |},
        {| _source := sv "f(x"; _cursor := 2; value := VNone |}).
Proof.
  apply (try_tokenize_matches_or_stays (sv "(") ParameterListBegin
           {| _source := sv "f(x"; _cursor := 1; value := @VNone (list ascii) |}).
  unfold valid; simpl; lia.
Defined.

(** X8 on "12". *)
Lemma next_token_returns_or_throws_out_of_range_witness :
  (exists t l', next_token stod_symbolic (Lexer_new (sv "12")) = Ok (t, l')) \/
  next_token stod_symbolic (Lexer_new (sv "12")) = Fault OutOfRange.
Proof.
  apply (next_token_returns_or_throws_out_of_range stod_symbolic).
  unfold valid; simpl; lia.
Defined.

(** X9 on " ab". *)
Lemma token_view_ends_at_cursor_witness :
  0 <= 1 /\ 1 <= 2 /\ 1 + 2 = 3 /\ 3 <= length (sv " ab") /\ 0 < 3.
Proof.
  apply (token_view_ends_at_cursor stod_symbolic (Lexer_new (sv " ab"))
           {| type := Identifier; view := {| start := 1; size := 2 |} |}
           {| _source := sv " ab"; _cursor := 3; value := VString (sv "ab") |});
    [reflexivity|discriminate].
Defined.

(** X10 on "a(". *)
Lemma successive_views_do_not_overlap_witness : 0 + 1 <= 1.
Proof.
  apply (successive_views_do_not_overlap stod_symbolic (Lexer_new (sv "a("))
           {| type := Identifier; view := {| start := 0; size := 1 |} |}
           {| _source := sv "a("; _cursor := 1; value := VString (sv "a") |}
           {| type := ParameterListBegin; view := {| start := 1; size := 1 |} |}
           {| _source := sv "a("; _cursor := 2; value := VString (sv "a") |});
    [reflexivity|reflexivity|discriminate].
Defined.

(** X11 on "a b". *)
Lemma EndOfFile_within_length_calls_witness :
  exists t,
    In t [ {| type := Identifier; view := {| start := 0; size := 1 |} |};
           {| type := Identifier; view := {| start := 2; size := 1 |} |};
           {| type := EndOfFile; view := {| start := 3; size := 1 |} |};
           {| type := EndOfFile; view := {| start := 3; size := 1 |} |} ] /\
    type t = EndOfFile.
Proof.
  apply (EndOfFile_within_length_calls stod_symbolic (sv "a b") _
           {| _source := sv "a b"; _cursor := 3; value := VString (sv "b") |}).
  reflexivity.
Defined.

(** X12 on "  x". *)
Lemma leading_whitespace_is_skipped_witness :
  next_token stod_symbolic (Lexer_new (sv "  x"))
  = next_token stod_symbolic
      {| _source := sv "  x"; _cursor := 2; value := VNone |}.
Proof.
  apply (leading_whitespace_is_skipped stod_symbolic (Lexer_new (sv "  x"))
           (sv "  ") (sv "x")); reflexivity.
Defined.

(** X13 on "f(x)" with the cursor on the opening parenthesis. *)
Lemma fixed_token_at_cursor_witness :
  next_token stod_symbolic
    {| _source := sv "f(x)"; _cursor := 1; value := VString (sv "f") |}
  = Ok ({| type := ParameterListBegin; view := {| start := 1; size := 1 |} |},
        {| _source := sv "f(x)"; _cursor := 2; value := VString (sv "f") |}).
Proof.
  apply (fixed_token_at_cursor stod_symbolic
           {| _source := sv "f(x)"; _cursor := 1; value := VString (sv "f") |}
           "("%char (sv "x)") ParameterListBegin);
    [reflexivity | simpl; auto | discriminate].
Defined.

(** X14 on "@x". *)
Lemma unrecognized_byte_is_Unexpected_witness :
  next_token stod_symbolic (Lexer_new (sv "@x"))
  = Ok ({| type := Unexpected; view := {| start := 0; size := 1 |} |},
        {| _source := sv "@x"; _cursor := 1; value := VNone |}).
Proof.
  apply (unrecognized_byte_is_Unexpected stod_symbolic (Lexer_new (sv "@x"))
           "@"%char (sv "x")); reflexivity.
Defined.

(** X15 on "returned+1". *)
Lemma identifier_is_maximal_run_witness :
  next_token stod_symbolic (Lexer_new (sv "returned+1"))
  = Ok ({| type := Identifier; view := {| start := 0; size := 8 |} |},
        {| _source := sv "returned+1"; _cursor := 8;
           value := VString (sv "returned") |}).
Proof.
  apply (identifier_is_maximal_run stod_symbolic (Lexer_new (sv "returned+1"))
           "r"%char (sv "eturned") (sv "+1")); try reflexivity.
  intros ty [H|[H|[H|[]]]]; discriminate H.
Defined.

(** X16 on "break;". *)
Lemma reserved_word_at_cursor_witness :
  next_token stod_symbolic (Lexer_new (sv "break;"))
  = Ok ({| type := Break; view := {| start := 0; size := 5 |} |},
        {| _source := sv "break;"; _cursor := 5; value := VNone |}).
Proof.
  apply (reserved_word_at_cursor stod_symbolic (Lexer_new (sv "break;"))
           (sv "break") (sv ";") Break);
    [simpl; auto | reflexivity | reflexivity].
Defined.

(** X17 on "12+3". *)
Lemma integer_is_maximal_run_witness :
  next_token stod_symbolic (Lexer_new (sv "12+3"))
  = Ok ({| type := LiteralInt; view := {| start := 0; size := 2 |} |},
        {| _source := sv "12+3"; _cursor := 2; value := VInt 12 |}).
Proof.
  apply (integer_is_maximal_run stod_symbolic (Lexer_new (sv "12+3"))
           (sv "12") (sv "+3")); [reflexivity|discriminate|reflexivity|reflexivity].
Defined.

(** X18 on "3.", a literal with no digit after the point. *)
Lemma float_is_digits_point_digits_witness :
  next_token stod_symbolic (Lexer_new (sv "3."))
  = Ok ({| type := LiteralFloat; view := {| start := 0; size := 2 |} |},
        {| _source := sv "3."; _cursor := 2; value := VDouble (sv "3.") |}).
Proof.
  apply (float_is_digits_point_digits stod_symbolic (Lexer_new (sv "3."))
           (sv "3") [] []);
    [reflexivity|discriminate|reflexivity|reflexivity|exact I].
Defined.

(** X19 on a comment " c" followed by a newline and "42". *)
Lemma line_comment_ends_at_newline_witness :
  (forall rest,
      skipn 0 (sv "// c" ++ "010"%char :: sv "42")
      = [] ++ sv "//" ++ sv " c" ++ "010"%char :: rest ->
      next_token stod_symbolic (Lexer_new (sv "// c" ++ "010"%char :: sv "42"))
      = Ok ({| type := EndOfLine; view := {| start := 4; size := 1 |} |},
            {| _source := sv "// c" ++ "010"%char :: sv "42"; _cursor := 5;
               value := VNone |})) /\
  (skipn 0 (sv "// c" ++ "010"%char :: sv "42") = [] ++ sv "//" ++ sv " c" ->
   next_token stod_symbolic (Lexer_new (sv "// c" ++ "010"%char :: sv "42"))
   = Ok ({| type := EndOfFile; view := {| start := 7; size := 1 |} |},
         {| _source := sv "// c" ++ "010"%char :: sv "42"; _cursor := 7;
            value := VNone |})).
Proof.
  apply (line_comment_ends_at_newline stod_symbolic
           (Lexer_new (sv "// c" ++ "010"%char :: sv "42")) [] (sv " c"));
    reflexivity.
Defined.

(** X20 on "  x", skipping white space. *)
Lemma skip_until_postcondition_witness :
  sv "  x" = sv "  x" /\ @VNone (list ascii) = VNone /\ 0 <= 2 /\
  (valid (@Lexer_new (list ascii) (sv "  x")) ->
   valid {| _source := sv "  x"; _cursor := 2; value := @VNone (list ascii) |}) /\
  (eof {| _source := sv "  x"; _cursor := 2; value := @VNone (list ascii) |} = true \/
   at_char (fun c => negb (isspace c))
     {| _source := sv "  x"; _cursor := 2; value := @VNone (list ascii) |}
   = Ok true).
Proof.
  apply (skip_until_postcondition (at_char (fun c => negb (isspace c)))
           (Lexer_new (sv "  x")) tt
           {| _source := sv "  x"; _cursor := 2; value := @VNone (list ascii) |}).
  reflexivity.
Defined.

(** X21 on a space, a newline and a tab. *)
Lemma whitespace_only_is_EndOfFile_witness :
  next_token stod_symbolic (Lexer_new [" "%char; "010"%char; "009"%char])
  = Ok ({| type := EndOfFile; view := {| start := 3; size := 1 |} |},
        {| _source := [" "%char; "010"%char; "009"%char]; _cursor := 3;
           value := VNone |}).
Proof.
  apply (whitespace_only_is_EndOfFile stod_symbolic
           [" "%char; "010"%char; "009"%char]).
  reflexivity.
Defined.


